(** * metro-now backend: the subscription-and-broadcast server

    A shallow embedding of [src/server.ts]: the three module-level maps
    ([subscribedStopIDsByClientID], [wsByClientID], [departuresByStopID]),
    the timer handle [intervalId], the asynchronous [fetchData] and the four
    handlers given to [Bun.serve] ([fetch], [open], [message], [close]).

    JavaScript [Map]s and plain objects are association lists that keep the
    order in which keys were created; the [await] inside [fetchData] splits
    the function into the part that runs up to the gateway call and the part
    that runs when the gateway's promise settles, so that other handlers can
    run in between. *)

From Stdlib Require Import List String Ascii Bool Arith NArith Lia Permutation.
Import ListNotations.

Open Scope string_scope.
Open Scope list_scope.
Open Scope nat_scope.

(** ** Keyed collections in creation order *)

Module Assoc.

Section Ops.
Context {V : Type}.

Definition t := list (string * V).

Fixpoint get (k : string) (m : t) : option V :=
  match m with
  | [] => None
  | (k', v) :: r => if String.eqb k k' then Some v else get k r
  end.

Definition has (k : string) (m : t) : bool :=
  match get k m with Some _ => true | None => false end.

(** [Map.prototype.set] and [CreateDataProperty]: an existing key keeps its
    place and takes the new value, a new key goes last. *)
Fixpoint set (k : string) (v : V) (m : t) : t :=
  match m with
  | [] => [(k, v)]
  | (k', v') :: r =>
      if String.eqb k k' then (k', v) :: r else (k', v') :: set k v r
  end.

Fixpoint delete (k : string) (m : t) : t :=
  match m with
  | [] => []
  | (k', v') :: r =>
      if String.eqb k k' then delete k r else (k', v') :: delete k r
  end.

Definition keys (m : t) : list string := map fst m.
Definition values (m : t) : list V := map snd m.
Definition size (m : t) : nat := List.length m.

End Ops.

Arguments t : clear implicits.

End Assoc.

(** ** Own-property order of a plain object

    [Object.entries] and [JSON.stringify] visit the keys that are array
    indices (canonical decimal numerals up to 2^32 - 2) first, in ascending
    numeric order, and then the remaining string keys in creation order. *)

Definition is_digit (c : ascii) : bool :=
  (48 <=? nat_of_ascii c) && (nat_of_ascii c <=? 57).

Fixpoint digits_value (s : string) (acc : N) : option N :=
  match s with
  | EmptyString => Some acc
  | String c r =>
      if is_digit c
      then digits_value r (acc * 10 + (N_of_ascii c - 48))%N
      else None
  end.

Definition array_index (s : string) : option N :=
  match s with
  | EmptyString => None
  | String c r =>
      if Ascii.eqb c "0" && negb (String.eqb r EmptyString) then None
      else match digits_value s 0%N with
           | Some n => if (n <=? 4294967294)%N then Some n else None
           | None => None
           end
  end.

Section OwnOrder.
Context {V : Type}.

Fixpoint insert_index (i : N) (e : string * V) (l : list (N * (string * V)))
  : list (N * (string * V)) :=
  match l with
  | [] => [(i, e)]
  | (j, e') :: r =>
      if (i <=? j)%N then (i, e) :: l else (j, e') :: insert_index i e r
  end.

Fixpoint index_entries (o : Assoc.t V) : list (N * (string * V)) :=
  match o with
  | [] => []
  | (k, v) :: r =>
      match array_index k with
      | Some i => insert_index i (k, v) (index_entries r)
      | None => index_entries r
      end
  end.

Fixpoint string_entries (o : Assoc.t V) : list (string * V) :=
  match o with
  | [] => []
  | (k, v) :: r =>
      match array_index k with
      | Some _ => string_entries r
      | None => (k, v) :: string_entries r
      end
  end.

(** [Object.entries(o)] *)
Definition Object_entries (o : Assoc.t V) : list (string * V) :=
  map snd (index_entries o) ++ string_entries o.

(** [Object.fromEntries(entries)] *)
Definition Object_fromEntries (entries : list (string * V)) : Assoc.t V :=
  fold_left (fun o e => Assoc.set (fst e) (snd e) o) entries [].

End OwnOrder.

(** ** JSON text *)

Definition dquote : string := String (ascii_of_nat 34) EmptyString.
Definition backslash : string := String (ascii_of_nat 92) EmptyString.

Definition hex_digit (n : nat) : ascii :=
  if n <? 10 then ascii_of_nat (48 + n) else ascii_of_nat (87 + n).

(** One code unit of [QuoteJSONString]. *)
Definition quote_char (c : ascii) : string :=
  let n := nat_of_ascii c in
  if n =? 8 then backslash ++ "b"
  else if n =? 9 then backslash ++ "t"
  else if n =? 10 then backslash ++ "n"
  else if n =? 12 then backslash ++ "f"
  else if n =? 13 then backslash ++ "r"
  else if n =? 34 then backslash ++ dquote
  else if n =? 92 then backslash ++ backslash
  else if n <? 32
       then backslash ++ "u00"
            ++ String (hex_digit (n / 16)) (String (hex_digit (n mod 16)) EmptyString)
  else String c EmptyString.

Fixpoint quote_chars (s : string) : string :=
  match s with
  | EmptyString => EmptyString
  | String c r => quote_char c ++ quote_chars r
  end.

Definition QuoteJSONString (s : string) : string :=
  dquote ++ quote_chars s ++ dquote.

Fixpoint join (sep : string) (l : list string) : string :=
  match l with
  | [] => EmptyString
  | [x] => x
  | x :: r => x ++ sep ++ join sep r
  end.

(** ** Collaborators outside [server.ts]

    The modules [./types], [./schemas], [./server/server.const],
    [./server/server.utils] and [./fetch-metro/fetch-metro] are imported by
    [server.ts]; what the server uses of them, and of the language's
    [JSON.parse], is gathered here. *)

Class Externals := {
  (** an element of [ApiResponse["departures"]] *)
  RawDeparture : Type;
  (** [Departure] of [./types] *)
  Departure : Type;
  (** [departure.stop.id] *)
  stop_id : RawDeparture -> string;
  getParsedDeparture : RawDeparture -> Departure;
  (** the JSON text of one [Departure] object *)
  Departure_toJSON : Departure -> string;
  (** the type [unknown] of a parsed JSON value *)
  unknown : Type;
  (** [JSON.parse]: the value, or the text of the error thrown *)
  JSON_parse : string -> string + unknown;
  (** [StopIDsSchema.safeParse]: [res.data], or [res.error.errors[0].message] *)
  StopIDsSchema_safeParse : unknown -> string + list string;
  (** [SubscribeSchema.safeParse]: [res.data.subscribe], or the first message *)
  SubscribeSchema_safeParse : unknown -> string + list string;
  STOP_IDS_HEADER : string;
  INTERVAL : nat
}.

(** [ServerWebSocket<ClientData>]: the handle carries [data.clientID]. *)
Record ServerWebSocket := { data_clientID : string }.

Inductive Error :=
| TypeError (msg : string)
| Rejection (reason : string).

(** How a piece of JavaScript ends: normally, or with a thrown error. *)
Inductive Completion (A : Type) :=
| Normal (a : A)
| Throw (e : Error).
Arguments Normal {A} a.
Arguments Throw {A} e.

(** What a handler does to the outside world. *)
Inductive Effect :=
| fetchApiData (stopIDs : list string)
| ws_send (ws : ServerWebSocket) (data : string)
| ws_close (ws : ServerWebSocket) (code : nat) (reason : string)
| setInterval (ms : nat) (id : nat)
| clearInterval (id : nat).

(** [radash.group], as the library documents it: items gathered under
    their key, keys in order of first occurrence, items in input order.
    Stop identifiers are taken not to name a member that an empty object
    inherits from [Object.prototype]. *)
Definition group_step {T : Type} (getGroupId : T -> string)
    (acc : Assoc.t (list T)) (item : T) : Assoc.t (list T) :=
  let groupId := getGroupId item in
  match Assoc.get groupId acc with
  | None => Assoc.set groupId [item] acc
  | Some l => Assoc.set groupId (l ++ [item]) acc
  end.

Definition group {T : Type} (array : list T) (getGroupId : T -> string)
  : Assoc.t (list T) :=
  fold_left (group_step getGroupId) array [].

(** The items a key selects. *)
Definition of_group {T : Type} (getGroupId : T -> string) (k : string)
    (x : T) : bool :=
  String.eqb (getGroupId x) k.

Section Server.
Context {ext : Externals}.

Record ApiResponse := { departures : list RawDeparture }.

(** The module-level variables of [server.ts]. *)
Record State := mkState {
  intervalId : option nat;
  subscribedStopIDsByClientID : Assoc.t (list string);
  wsByClientID : Assoc.t ServerWebSocket;
  departuresByStopID : Assoc.t (list Departure)
}.

Definition initial : State := mkState None [] [] [].

Definition getAllSubscribedStopIDs (st : State) : list string :=
  List.concat (Assoc.values (subscribedStopIDsByClientID st)).

(** The argument of [fetchData] when it is truthy: [undefined] and the empty
    string take the other branch of [clientID ? ... : ...]. *)
Definition target (clientID : option string) : option string :=
  match clientID with
  | Some c => if String.eqb c EmptyString then None else Some c
  | None => None
  end.

Definition undefined_is_not_an_object : Error :=
  TypeError "undefined is not an object".

(** Lines 35-39. *)
Definition stopIDsToFetch (clientID : option string) (st : State)
  : Completion (list string) :=
  match target clientID with
  | Some c =>
      match Assoc.get c (subscribedStopIDsByClientID st) with
      | Some stopIDs =>
          Normal (filter (fun stopID =>
                            negb (Assoc.has stopID (departuresByStopID st)))
                         stopIDs)
      | None => Throw undefined_is_not_an_object
      end
  | None => Normal (getAllSubscribedStopIDs st)
  end.

(** A call of the asynchronous [fetchData] runs lines 35-41 at once: it
    either reaches the gateway call and waits there, or a throw before it
    rejects the promise the call returns. *)
Inductive Started :=
| Pending
| Rejected (e : Error).

Definition fetchData_start (clientID : option string) (st : State)
  : list Effect * Started :=
  match stopIDsToFetch clientID st with
  | Normal stopIDs => ([fetchApiData stopIDs], Pending)
  | Throw e => ([], Rejected e)
  end.

(** Lines 51-62: every group of the response overwrites its stop's entry. *)
Definition setDepartures (cache : Assoc.t (list Departure))
    (entry : string * list RawDeparture) : Assoc.t (list Departure) :=
  Assoc.set (fst entry) (map getParsedDeparture (snd entry)) cache.

Definition updateDepartures (res : ApiResponse) (st : State) : State :=
  match departures res with
  | [] => st
  | _ :: _ =>
      mkState (intervalId st) (subscribedStopIDsByClientID st) (wsByClientID st)
        (fold_left setDepartures
           (Object_entries (group (departures res) stop_id))
           (departuresByStopID st))
  end.

(** Lines 69-76: the object built by [Object.fromEntries]; a stop that is not
    in the cache has the value [undefined], here [None]. *)
Definition dataForClient (clientID : string) (st : State)
  : Completion (Assoc.t (option (list Departure))) :=
  match Assoc.get clientID (subscribedStopIDsByClientID st) with
  | Some stopIDsSubscribedByClient =>
      Normal (Object_fromEntries
                (map (fun stopID =>
                        (stopID, Assoc.get stopID (departuresByStopID st)))
                     stopIDsSubscribedByClient))
  | None => Throw undefined_is_not_an_object
  end.

(** The values a JSON object of this server can hold. *)
Inductive JSONValue :=
| JSON_null
| JSON_array (elements : list Departure).

Definition JSONObject := list (string * JSONValue).

(** [SerializeJSONObject]: the own properties in [Object.entries] order; a
    property whose value is [undefined] is left out. *)
Fixpoint JSON_properties (entries : list (string * option (list Departure)))
  : JSONObject :=
  match entries with
  | [] => []
  | (k, Some ds) :: r => (k, JSON_array ds) :: JSON_properties r
  | (k, None) :: r => JSON_properties r
  end.

Definition JSON_value_text (v : JSONValue) : string :=
  match v with
  | JSON_null => "null"
  | JSON_array ds => "[" ++ join "," (map Departure_toJSON ds) ++ "]"
  end.

Definition JSON_property_text (p : string * JSONValue) : string :=
  QuoteJSONString (fst p) ++ ":" ++ JSON_value_text (snd p).

Definition JSON_object_text (o : JSONObject) : string :=
  "{" ++ join "," (map JSON_property_text o) ++ "}".

Definition JSON_stringify (o : Assoc.t (option (list Departure))) : string :=
  JSON_object_text (JSON_properties (Object_entries o)).

(** Lines 68-78. *)
Definition getStringifiedDataForClientID (clientID : string) (st : State)
  : Completion string :=
  match dataForClient clientID st with
  | Normal o => Normal (JSON_stringify o)
  | Throw e => Throw e
  end.

(** Lines 94-96: [wsByClientID.forEach]; a throw ends the loop. *)
Fixpoint sendToAll (clients : list (string * ServerWebSocket)) (st : State)
  : list Effect * Completion unit :=
  match clients with
  | [] => ([], Normal tt)
  | (clientID, ws) :: r =>
      match getStringifiedDataForClientID clientID st with
      | Normal data =>
          let '(effs, c) := sendToAll r st in (ws_send ws data :: effs, c)
      | Throw e => ([], Throw e)
      end
  end.

(** Lines 46-96: [fetchData] from the point where the awaited gateway call
    has produced [res]. *)
Definition fetchData_resume (clientID : option string) (res : ApiResponse)
    (st : State) : State * list Effect * Completion unit :=
  match departures res, target clientID with
  | [], None => (st, [], Normal tt)
  | _, Some c =>
      let st' := updateDepartures res st in
      match Assoc.get c (wsByClientID st') with
      | None => (st', [], Throw undefined_is_not_an_object)
      | Some ws =>
          match getStringifiedDataForClientID c st' with
          | Normal data => (st', [ws_send ws data], Normal tt)
          | Throw e => (st', [], Throw e)
          end
      end
  | _, None =>
      let st' := updateDepartures res st in
      let '(effs, c) := sendToAll (wsByClientID st') st' in
      (st', effs, c)
  end.

(** The whole of [fetchData] after line 41: the gateway's promise is either
    rejected, and the rejection leaves the [await] as a throw, or fulfilled. *)
Definition fetchData_settle (clientID : option string)
    (outcome : Error + ApiResponse) (st : State)
  : State * list Effect * Completion unit :=
  match outcome with
  | inl e => (st, [], Throw e)
  | inr res => fetchData_resume clientID res st
  end.

(** The departures a settled gateway call has for a stop. *)
Definition returned_for (outcome : Error + ApiResponse) (stopID : string)
  : list RawDeparture :=
  match outcome with
  | inl _ => []
  | inr res => filter (of_group stop_id stopID) (departures res)
  end.

(** [fetchData(clientID)] run without interruption, the gateway answering
    the call with [gateway stopIDs]. *)
Definition fetchData (clientID : option string)
    (gateway : list string -> Error + ApiResponse) (st : State)
  : State * list Effect * Completion unit :=
  match stopIDsToFetch clientID st with
  | Normal stopIDs =>
      let '(st', effs, c) := fetchData_settle clientID (gateway stopIDs) st in
      (st', fetchApiData stopIDs :: effs, c)
  | Throw e => (st, [], Throw e)
  end.

(** *** The handlers given to [Bun.serve] *)

(** What [fetch] reads of a request: the header [STOP_IDS_HEADER], and
    whether [server.upgrade] succeeds on it (it does not on a request that is
    no WebSocket handshake). *)
Record Request := { stopIDsHeader : option string; upgrades : bool }.

(** [getErrorResponse(message)] *)
Inductive Response := ErrorResponse (message : string).

(** Lines 100-123; [uuid] is the identifier [uuid()] returns. The result
    [None] is the handler returning [undefined] after a successful upgrade. *)
Definition fetch (req : Request) (uuid : string) (st : State)
  : State * option Response :=
  match stopIDsHeader req with
  | None =>
      (st, Some (ErrorResponse
                   (dquote ++ STOP_IDS_HEADER ++ dquote ++ " header is missing")))
  | Some stopIDsHeaderRaw =>
      if String.eqb stopIDsHeaderRaw EmptyString
      then (st, Some (ErrorResponse
                   (dquote ++ STOP_IDS_HEADER ++ dquote ++ " header is missing")))
      else
        match JSON_parse stopIDsHeaderRaw with
        | inl error =>
            (st, Some (ErrorResponse
                   (dquote ++ STOP_IDS_HEADER ++ dquote ++ " header " ++ error)))
        | inr StopIDsHeaderParsed =>
            match StopIDsSchema_safeParse StopIDsHeaderParsed with
            | inl msg =>
                (st, Some (ErrorResponse
                   (dquote ++ STOP_IDS_HEADER ++ dquote ++ " error: " ++ msg)))
            | inr data =>
                let st' :=
                  mkState (intervalId st)
                    (Assoc.set uuid data (subscribedStopIDsByClientID st))
                    (wsByClientID st) (departuresByStopID st) in
                if upgrades req then (st', None)
                else (st', Some (ErrorResponse "Failed to upgrade connection"))
            end
        end
  end.

(** Lines 125-136; [timer] is the handle the runtime gives to a new interval. *)
Definition open (ws : ServerWebSocket) (timer : nat) (st : State)
  : State * list Effect * Started :=
  let clientID := data_clientID ws in
  let st1 :=
    mkState (intervalId st) (subscribedStopIDsByClientID st)
      (Assoc.set clientID ws (wsByClientID st)) (departuresByStopID st) in
  let '(effs, started) := fetchData_start (Some clientID) st1 in
  match intervalId st1 with
  | Some _ => (st1, effs, started)
  | None =>
      (mkState (Some timer) (subscribedStopIDsByClientID st1)
         (wsByClientID st1) (departuresByStopID st1),
       effs ++ [setInterval INTERVAL timer], started)
  end.

(** [string | Buffer] *)
Inductive Message :=
| Text (s : string)
| Binary.

(** Lines 137-158. *)
Definition message (ws : ServerWebSocket) (msg : Message) (st : State)
  : State * list Effect :=
  match msg with
  | Binary => (st, [ws_close ws 1011 "Message has to be string"])
  | Text s =>
      match JSON_parse s with
      | inl error => (st, [ws_close ws 1011 error])
      | inr StopIDsHeaderParsed =>
          match SubscribeSchema_safeParse StopIDsHeaderParsed with
          | inl msg => (st, [ws_close ws 1011 msg])
          | inr subscribe =>
              (mkState (intervalId st)
                 (Assoc.set (data_clientID ws) subscribe
                    (subscribedStopIDsByClientID st))
                 (wsByClientID st) (departuresByStopID st), [])
          end
      end
  end.

(** Lines 159-169. *)
Definition close (ws : ServerWebSocket) (st : State) : State * list Effect :=
  let clientID := data_clientID ws in
  let subscribed := Assoc.delete clientID (subscribedStopIDsByClientID st) in
  let st1 :=
    mkState (intervalId st) subscribed
      (Assoc.delete clientID (wsByClientID st)) (departuresByStopID st) in
  let numOfsubscribedClients := Assoc.size subscribed in
  match intervalId st1 with
  | Some id =>
      if 0 <? numOfsubscribedClients then (st1, [])
      else (mkState None subscribed (wsByClientID st1) (departuresByStopID st1),
            [clearInterval id])
  | None => (st1, [])
  end.

End Server.

(** ** The server under the runtime

    Bun delivers requests, socket events and timer ticks one at a time; a
    call of [fetchData] that waits for the gateway stays pending while other
    handlers run, and resumes when the gateway's promise settles. *)

Section Runtime.
Context {ext : Externals}.

(** A socket the runtime holds: upgraded (its [open] handler has not run
    yet) or opened. It is dropped when its [close] handler runs. *)
Inductive Socket :=
| Upgraded
| Opened.

Record World := mkWorld {
  state : State;
  (** the sockets of the runtime, by client identifier *)
  connections : Assoc.t Socket;
  (** the calls of [fetchData] waiting at line 41, by their argument *)
  pending : list (option string);
  (** the errors of the [fetchData] promises that were rejected; nothing in
      [server.ts] handles them *)
  rejections : list Error;
  (** the intervals the runtime is running *)
  timers : list nat;
  nextTimer : nat;
  (** the identifiers requests were given by [uuid()] *)
  issued : list string;
  (** everything the handlers did to the outside, latest last *)
  effects : list Effect
}.

Definition boot : World := mkWorld initial [] [] [] [] 0 [] [].

Inductive Event :=
| request (req : Request) (uuid : string)
| opens (clientID : string)
| receives (clientID : string) (msg : Message)
| closes (clientID : string)
| tick (id : nat)
| settles (n : nat) (outcome : Error + ApiResponse).

Definition mem (x : string) (l : list string) : bool :=
  existsb (String.eqb x) l.

(** The list without its [n]-th element. *)
Fixpoint drop_nth {A : Type} (n : nat) (l : list A) : list A :=
  match n, l with
  | _, [] => []
  | 0, _ :: r => r
  | S n', x :: r => x :: drop_nth n' r
  end.

(** The runtime's side of the timer effects of a handler. *)
Fixpoint run_timers (effs : list Effect) (ts : list nat) : list nat :=
  match effs with
  | [] => ts
  | setInterval _ id :: r => run_timers r (ts ++ [id])
  | clearInterval id :: r => run_timers r (remove Nat.eq_dec id ts)
  | _ :: r => run_timers r ts
  end.

Definition note_start (clientID : option string) (s : Started)
    (p : list (option string)) : list (option string) :=
  match s with Pending => p ++ [clientID] | Rejected _ => p end.

Definition note_rejection (s : Started) (r : list Error) : list Error :=
  match s with Pending => r | Rejected e => r ++ [e] end.

Definition note_throw (c : Completion unit) (r : list Error) : list Error :=
  match c with Normal _ => r | Throw e => r ++ [e] end.

(** One event, when the runtime can deliver it: [uuid()] returns a new
    non-empty identifier; [open] runs once on an upgraded socket; messages
    and [close] come on an opened socket; a tick comes from a running
    interval; a pending call is settled once. *)
Definition run (w : World) (e : Event) : option World :=
  match e with
  | request req uuid =>
      if String.eqb uuid EmptyString || mem uuid (issued w) then None
      else
        let '(st', response) := fetch req uuid (state w) in
        Some (mkWorld st'
                (match response with
                 | None => Assoc.set uuid Upgraded (connections w)
                 | Some _ => connections w
                 end)
                (pending w) (rejections w) (timers w) (nextTimer w)
                (uuid :: issued w) (effects w))
  | opens clientID =>
      match Assoc.get clientID (connections w) with
      | Some Upgraded =>
          let '(st', effs, started) :=
            open {| data_clientID := clientID |} (nextTimer w) (state w) in
          Some (mkWorld st'
                  (Assoc.set clientID Opened (connections w))
                  (note_start (Some clientID) started (pending w))
                  (note_rejection started (rejections w))
                  (run_timers effs (timers w)) (S (nextTimer w))
                  (issued w) (effects w ++ effs))
      | _ => None
      end
  | receives clientID msg =>
      match Assoc.get clientID (connections w) with
      | Some Opened =>
          let '(st', effs) :=
            message {| data_clientID := clientID |} msg (state w) in
          Some (mkWorld st' (connections w) (pending w) (rejections w)
                  (timers w) (nextTimer w) (issued w) (effects w ++ effs))
      | _ => None
      end
  | closes clientID =>
      match Assoc.get clientID (connections w) with
      | Some Opened =>
          let '(st', effs) := close {| data_clientID := clientID |} (state w) in
          Some (mkWorld st' (Assoc.delete clientID (connections w))
                  (pending w) (rejections w)
                  (run_timers effs (timers w)) (nextTimer w)
                  (issued w) (effects w ++ effs))
      | _ => None
      end
  | tick id =>
      if existsb (Nat.eqb id) (timers w) then
        let '(effs, started) := fetchData_start None (state w) in
        Some (mkWorld (state w) (connections w)
                (note_start None started (pending w))
                (note_rejection started (rejections w))
                (timers w) (nextTimer w) (issued w) (effects w ++ effs))
      else None
  | settles n outcome =>
      match nth_error (pending w) n with
      | Some clientID =>
          let '(st', effs, c) := fetchData_settle clientID outcome (state w) in
          Some (mkWorld st' (connections w) (drop_nth n (pending w))
                  (note_throw c (rejections w))
                  (timers w) (nextTimer w) (issued w) (effects w ++ effs))
      | None => None
      end
  end.

Fixpoint runs (w : World) (es : list Event) : option World :=
  match es with
  | [] => Some w
  | e :: r => match run w e with Some w' => runs w' r | None => None end
  end.

(** The world a sequence of events leads to from [boot] ([boot] itself if
    the runtime cannot deliver the sequence). *)
Definition after (es : list Event) : World :=
  match runs boot es with Some w => w | None => boot end.

Inductive reachable : World -> Prop :=
| reachable_boot : reachable boot
| reachable_run w e w' : reachable w -> run w e = Some w' -> reachable w'.

(** What the maps and the runtime agree on in every reachable world. *)
Record consistent (w : World) : Prop := {
  handle_opened :
    forall c, Assoc.has c (wsByClientID (state w)) = true ->
              Assoc.get c (connections w) = Some Opened;
  opened_handle :
    forall c, Assoc.get c (connections w) = Some Opened ->
              Assoc.has c (wsByClientID (state w)) = true;
  socket_subscribed :
    forall c, Assoc.get c (connections w) <> None ->
              Assoc.has c (subscribedStopIDsByClientID (state w)) = true;
  socket_issued :
    forall c, Assoc.get c (connections w) <> None -> In c (issued w);
  issued_truthy : forall c, In c (issued w) -> c <> EmptyString;
  handle_own :
    forall c ws, In (c, ws) (wsByClientID (state w)) -> data_clientID ws = c;
  one_timer :
    timers w = match intervalId (state w) with Some id => [id] | None => [] end;
  timer_when_handle :
    forall c, Assoc.has c (wsByClientID (state w)) = true ->
              intervalId (state w) <> None;
  no_timer_when_unsubscribed :
    subscribedStopIDsByClientID (state w) = [] -> intervalId (state w) = None
}.

End Runtime.

(** ** A concrete instance of the collaborators

    Departures are pairs of a stop identifier and a headsign. The reader of
    JSON text below accepts arrays of plain string literals, and objects with
    the one key [subscribe] holding such an array; any other text is a syntax
    error. Both schemas ask for a non-empty array of non-empty strings. *)

Module Demo.

Inductive Reader :=
| at_start
| at_item (items : list string)
| in_string (items : list string) (chars : string)
| after_item (items : list string)
| at_end (items : list string)
| failed.

Definition read_char (r : Reader) (c : ascii) : Reader :=
  let n := nat_of_ascii c in
  match r with
  | at_start => if n =? 91 then at_item [] else failed
  | at_item items => if n =? 34 then in_string items EmptyString else failed
  | in_string items chars =>
      if n =? 34 then after_item (items ++ [chars])
      else if (n =? 92) || (n <? 32) then failed
      else in_string items (chars ++ String c EmptyString)
  | after_item items =>
      if n =? 44 then at_item items
      else if n =? 93 then at_end items
      else failed
  | at_end _ => failed
  | failed => failed
  end.

Fixpoint read_from (r : Reader) (s : string) : Reader :=
  match s with
  | EmptyString => r
  | String c rest => read_from (read_char r c) rest
  end.

Definition read_array (s : string) : option (list string) :=
  match read_from at_start s with
  | at_end items => Some items
  | _ => None
  end.

Inductive Value :=
| array_of_strings (items : list string)
| subscribe_object (items : list string).

Definition subscribe_prefix : string :=
  "{" ++ dquote ++ "subscribe" ++ dquote ++ ":".

Definition parse (s : string) : string + Value :=
  match read_array s with
  | Some items => inr (array_of_strings items)
  | None =>
      let n := String.length subscribe_prefix in
      let len := String.length s in
      if String.prefix subscribe_prefix s
         && String.eqb (substring (len - 1) 1 s) "}"
      then match read_array (substring n (len - 1 - n) s) with
           | Some items => inr (subscribe_object items)
           | None => inl "SyntaxError: JSON Parse error"
           end
      else inl "SyntaxError: JSON Parse error"
  end.

Definition stop_ids (items : list string) : string + list string :=
  match items with
  | [] => inl "Array must contain at least 1 element(s)"
  | _ :: _ =>
      if existsb (String.eqb EmptyString) items
      then inl "String must contain at least 1 character(s)"
      else inr items
  end.

Definition departure_text (d : string * string) : string :=
  "{" ++ QuoteJSONString "stopID" ++ ":" ++ QuoteJSONString (fst d)
  ++ "," ++ QuoteJSONString "headsign" ++ ":" ++ QuoteJSONString (snd d) ++ "}".

Definition externals : Externals := {|
  RawDeparture := string * string;
  Departure := string * string;
  stop_id := fst;
  getParsedDeparture := fun d => d;
  Departure_toJSON := departure_text;
  unknown := Value;
  JSON_parse := parse;
  StopIDsSchema_safeParse := fun v =>
    match v with
    | array_of_strings items => stop_ids items
    | subscribe_object _ => inl "Expected array, received object"
    end;
  SubscribeSchema_safeParse := fun v =>
    match v with
    | subscribe_object items => stop_ids items
    | array_of_strings _ => inl "Expected object, received array"
    end;
  STOP_IDS_HEADER := "x-stop-ids";
  INTERVAL := 5000
|}.

(** The header text [["stopA"]] and the like. *)
Definition array_text (items : list string) : string :=
  "[" ++ join "," (map QuoteJSONString items) ++ "]".

Definition subscribe_text (items : list string) : string :=
  subscribe_prefix ++ array_text items ++ "}".

Definition handshake (items : list string) : Request :=
  {| stopIDsHeader := Some (array_text items); upgrades := true |}.

(** The same header on a request that is no WebSocket handshake. *)
Definition plain_request (items : list string) : Request :=
  {| stopIDsHeader := Some (array_text items); upgrades := false |}.

(** *** Scenarios *)

Definition ws_u1 : ServerWebSocket := {| data_clientID := "u1" |}.

(** The gateway has one departure for [stopA]. *)
Definition haje : @ApiResponse externals :=
  @Build_ApiResponse externals [("stopA", "Haje")].

(** The gateway has nothing. *)
Definition nothing : @ApiResponse externals := @Build_ApiResponse externals [].

Definition unavailable : Error := Rejection "upstream unavailable".

(** A client connects for [stopA]; its first refresh waits for the gateway. *)
Definition one_client : list (@Event externals) :=
  [request (handshake ["stopA"]) "u1"; opens "u1"].

(** The gateway answers that refresh with no departure. *)
Definition never_fetched : list (@Event externals) :=
  one_client ++ [settles 0 (inr nothing)].

(** The gateway answers it with a departure; a second client connects for
    the same stop. *)
Definition one_client_served : list (@Event externals) :=
  one_client ++ [settles 0 (inr haje)].

Definition second_client : list (@Event externals) :=
  one_client_served ++ [request (handshake ["stopA"]) "u2"; opens "u2"].

(** The gateway call of the first refresh fails. *)
Definition gateway_fails : list (@Event externals) :=
  one_client ++ [settles 0 (inl unavailable)].

(** The client closes while its first refresh waits; then the gateway
    answers. *)
Definition closed_while_pending : list (@Event externals) :=
  one_client ++ [closes "u1"; settles 0 (inr haje)].

(** A request that carries the header but is no WebSocket handshake. *)
Definition not_a_handshake : list (@Event externals) :=
  [request (plain_request ["stopA"]) "u1"].

(** After such a request, a client connects and closes again. *)
Definition last_client_closes : list (@Event externals) :=
  not_a_handshake
  ++ [request (handshake ["stopB"]) "u2"; opens "u2"; closes "u2"].

(** The client replaces its subscription. *)
Definition resubscribes : list (@Event externals) :=
  one_client_served ++ [receives "u1" (Text (subscribe_text ["stopB"]))].

(** Both clients are served; a tick starts a refresh for everyone. *)
Definition both_served : list (@Event externals) :=
  second_client ++ [settles 0 (inr nothing)].

Definition ticked : list (@Event externals) := both_served ++ [tick 0].


(** The served client closes. *)
Definition served_client_closes : list (@Event externals) :=
  one_client_served ++ [closes "u1"].


(** The state and the frame of [one_client_served]. *)
Definition served : @State externals :=
  @mkState externals (Some 0) [("u1", ["stopA"])] [("u1", ws_u1)]
    [("stopA", [("stopA", "Haje")])].

Definition stopA_payload : string :=
  @JSON_object_text externals
    [("stopA", @JSON_array externals [("stopA", "Haje")])].

End Demo.

(** ** More of what holds in every reachable world *)

Section Upkeep.
Context {ext : Externals}.


(** The maps have one entry per key, every key was handed out by [uuid()],
    every pending targeted refresh is for such a key, and no cache entry is
    an empty array. *)
Record tidy (w : World) : Prop := {
  registry_distinct :
    NoDup (Assoc.keys (subscribedStopIDsByClientID (state w)));
  handles_distinct : NoDup (Assoc.keys (wsByClientID (state w)));
  registry_issued :
    forall c, Assoc.has c (subscribedStopIDsByClientID (state w)) = true ->
              In c (issued w);
  pending_issued : forall c, In (Some c) (pending w) -> In c (issued w);
  cache_filled :
    forall stopID ds,
      Assoc.get stopID (departuresByStopID (state w)) = Some ds -> ds <> []
}.

(** Whether the cache of a world has an entry for a stop. *)
Definition cached_in (w : World) (stopID : string) : bool :=
  Assoc.has stopID (departuresByStopID (state w)).

End Upkeep.

(** ** The widget's timeline provider ([Provider.swift])

    [getSnapshot] and [getTimeline] ask for the departures of the platforms
    of one station and build a [WidgetEntry] from the first departure of
    each platform. What the provider uses of the station data, the API model
    and Core Location is gathered in [Collaborators]; the asynchronous
    [getDeparturesByGtfsID] is an argument, and a Swift runtime trap (the
    [try!] on a thrown error, the subscript [dep[0]] on an empty array) is
    the outcome [Trap]. *)

Module Widget.

Class Collaborators := {
  Date : Type;
  (** [CLLocationDegrees] *)
  Degrees : Type;
  CLLocation : Type;
  (** [location.coordinate.latitude], [location.coordinate.longitude] *)
  latitude : CLLocation -> Degrees;
  longitude : CLLocation -> Degrees;
  (** [CLLocation(latitude:longitude:)] *)
  CLLocation_init : Degrees -> Degrees -> CLLocation;
  Station : Type;
  Platform : Type;
  (** [station.properties.name], [station.properties.platforms] *)
  name : Station -> string;
  platforms : Station -> list Platform;
  gtfsId : Platform -> string;
  (** a departure of the API model *)
  ApiDeparture : Type;
  (** [departureTimestamp.predicted], [trip.headsign], [route.shortName] *)
  predicted : ApiDeparture -> Date;
  headsign : ApiDeparture -> string;
  shortName : ApiDeparture -> string;
  getClosestStationFromGeoJSON : CLLocation -> Station;
  FLORENC_COORDINATES : CLLocation
}.

Section Provider.
Context {col : Collaborators}.

Record WidgetEntryDeparture := {
  departureDate : Date;
  direction : string;
  metroLine : string
}.

Record WidgetEntry := {
  date : Date;
  stationName : string;
  departures : list WidgetEntryDeparture
}.

Inductive TimelineReloadPolicy := atEnd.

Record Timeline := {
  entries : list WidgetEntry;
  policy : TimelineReloadPolicy
}.

Inductive Outcome (A : Type) :=
| Completed (a : A)
| Trap.
Arguments Completed {A} a.
Arguments Trap {A}.

(** What [try! await getDeparturesByGtfsID(gtfsIDs:)] meets: the dictionary
    of departures by platform, or a thrown error. *)
Inductive Fetched :=
| Returned (departures : Assoc.t (list ApiDeparture))
| Thrown.

(** Lines 29-31 and 77-79: the entry of a platform, from its first
    departure. *)
Definition parsedDeparture (first : ApiDeparture) : WidgetEntryDeparture :=
  {| departureDate := predicted first;
     direction := headsign first;
     metroLine := shortName first |}.

(** Lines 26-33 and 74-81: the loop over the platforms, appending to
    [parsedDepartures]. *)
Fixpoint parseDepartures (gtfsIDs : list string)
    (departures : Assoc.t (list ApiDeparture))
    (parsedDepartures : list WidgetEntryDeparture)
  : Outcome (list WidgetEntryDeparture) :=
  match gtfsIDs with
  | [] => Completed parsedDepartures
  | gtfsID :: rest =>
      let dep :=
        match Assoc.get gtfsID departures with Some d => d | None => [] end in
      match dep with
      | [] => Trap
      | first :: _ =>
          parseDepartures rest departures
            (parsedDepartures ++ [parsedDeparture first])
      end
  end.

(** The closure of lines 38-42 and 83-87. *)
Definition rewrap (d : WidgetEntryDeparture) : WidgetEntryDeparture :=
  {| departureDate := departureDate d;
     direction := direction d;
     metroLine := metroLine d |}.

(** Lines 17-46; [now] is the value of [.now] when the entry is built. The
    outcome is the entry handed to [completion]. *)
Definition getSnapshot (getDeparturesByGtfsID : list string -> Fetched)
    (now : Date) : Outcome WidgetEntry :=
  let closestStation := getClosestStationFromGeoJSON FLORENC_COORDINATES in
  let gtfsIDs := map gtfsId (platforms closestStation) in
  match getDeparturesByGtfsID gtfsIDs with
  | Thrown => Trap
  | Returned departures =>
      match parseDepartures gtfsIDs departures [] with
      | Trap => Trap
      | Completed parsedDepartures =>
          Completed {| date := now;
                       stationName := name closestStation;
                       departures := map rewrap parsedDepartures |}
      end
  end.

(** Lines 48-93; [currentLocation] is [locationManager.location]. The
    outcome is the timeline handed to [completion]. *)
Definition getTimeline (currentLocation : option CLLocation)
    (getDeparturesByGtfsID : list string -> Fetched) (now : Date)
  : Outcome Timeline :=
  match currentLocation with
  | None => Completed {| entries := []; policy := atEnd |}
  | Some currentLocation =>
      let closestStation :=
        getClosestStationFromGeoJSON
          (CLLocation_init (latitude currentLocation)
             (longitude currentLocation)) in
      let gtfsIDs := map gtfsId (platforms closestStation) in
      match getDeparturesByGtfsID gtfsIDs with
      | Thrown => Trap
      | Returned departures =>
          match parseDepartures gtfsIDs departures [] with
          | Trap => Trap
          | Completed parsedDepartures =>
              let entry :=
                {| date := now;
                   stationName := name closestStation;
                   departures := map rewrap parsedDepartures |} in
              Completed {| entries := [] ++ [entry]; policy := atEnd |}
          end
      end
  end.

(** The first departure of each platform, when the dictionary has one for
    each. *)
Definition first_departures (departures : Assoc.t (list ApiDeparture))
    (gtfsIDs : list string) (firsts : list ApiDeparture) : Prop :=
  Forall2 (fun gtfsID first =>
             exists others,
               Assoc.get gtfsID departures = Some (first :: others))
          gtfsIDs firsts.

(** A platform for which [dep[0]] traps: no key, or an empty array. *)
Definition lacks_departures (departures : Assoc.t (list ApiDeparture))
    (gtfsID : string) : Prop :=
  Assoc.get gtfsID departures = None \/ Assoc.get gtfsID departures = Some [].

End Provider.

Arguments Completed {A} a.
Arguments Trap {A}.

(** A concrete instance: two stations of two platforms each, locations as
    pairs of whole degrees, dates as numbers, a departure as its predicted
    date, headsign and line. *)
Definition florenc : string * list string := ("Florenc", ["U689Z101P"; "U689Z102P"]).
Definition mustek : string * list string := ("Mustek", ["U1072Z101P"; "U1072Z102P"]).

Definition collaborators : Collaborators := {|
  Date := nat;
  Degrees := nat;
  CLLocation := nat * nat;
  latitude := fst;
  longitude := snd;
  CLLocation_init := pair;
  Station := string * list string;
  Platform := string;
  name := fst;
  platforms := snd;
  gtfsId := fun p => p;
  ApiDeparture := nat * string * string;
  predicted := fun d => fst (fst d);
  headsign := fun d => snd (fst d);
  shortName := snd;
  getClosestStationFromGeoJSON := fun l => if 15 <=? snd l then florenc else mustek;
  FLORENC_COORDINATES := (50, 15)
|}.

(** Both platforms of Florenc have departures; Mustek's second has none. *)
Definition board : Assoc.t (list (nat * string * string)) :=
  [("U689Z101P", [(100, "Haje", "C"); (160, "Haje", "C")]);
   ("U689Z102P", [(130, "Letnany", "C")]);
   ("U1072Z101P", [(110, "Depo Hostivar", "A")]);
   ("U1072Z102P", [])].

Definition api : list string -> @Fetched collaborators :=
  fun _ => @Returned collaborators board.

(** A location whose closest station is Florenc, and a date. *)
Definition near_florenc : @CLLocation collaborators := pair 50 20.
Definition noon : @Date collaborators := 720.

End Widget.

(** * Properties *)

(** ** Keyed collections *)

Section AssocFacts.
Context {V : Type}.
Implicit Types (m : Assoc.t V) (k : string) (v : V).

Lemma get_set_same k v m : Assoc.get k (Assoc.set k v m) = Some v.
Proof.
  induction m as [|[k' v'] r IH]; simpl.
  - now rewrite String.eqb_refl.
  - destruct (String.eqb k k') eqn:E; simpl; rewrite E; [reflexivity|exact IH].
Qed.

Lemma get_set_other k k' v m :
  k <> k' -> Assoc.get k' (Assoc.set k v m) = Assoc.get k' m.
Proof.
  intros N. induction m as [|[k0 v0] r IH]; simpl.
  - destruct (String.eqb k' k) eqn:E; [|reflexivity].
    apply String.eqb_eq in E. congruence.
  - destruct (String.eqb k k0) eqn:E; simpl.
    + apply String.eqb_eq in E. subst k0.
      destruct (String.eqb k' k) eqn:E'; [|reflexivity].
      apply String.eqb_eq in E'. congruence.
    + now rewrite IH.
Qed.

Lemma get_delete_same k m : Assoc.get k (Assoc.delete k m) = None.
Proof.
  induction m as [|[k' v'] r IH]; simpl; [reflexivity|].
  destruct (String.eqb k k') eqn:E; simpl; [exact IH|now rewrite E].
Qed.

Lemma get_delete_other k k' m :
  k <> k' -> Assoc.get k' (Assoc.delete k m) = Assoc.get k' m.
Proof.
  intros N. induction m as [|[k0 v0] r IH]; simpl; [reflexivity|].
  destruct (String.eqb k k0) eqn:E; simpl.
  - apply String.eqb_eq in E. subst k0.
    destruct (String.eqb k' k) eqn:E'; [|exact IH].
    apply String.eqb_eq in E'. congruence.
  - now rewrite IH.
Qed.

Lemma has_set k k' v m :
  Assoc.has k' (Assoc.set k v m) = String.eqb k' k || Assoc.has k' m.
Proof.
  unfold Assoc.has. destruct (String.eqb k' k) eqn:E.
  - apply String.eqb_eq in E. subst. now rewrite get_set_same.
  - apply String.eqb_neq in E. rewrite get_set_other by congruence. reflexivity.
Qed.

Lemma has_delete k k' m :
  Assoc.has k' (Assoc.delete k m) = negb (String.eqb k' k) && Assoc.has k' m.
Proof.
  unfold Assoc.has. destruct (String.eqb k' k) eqn:E.
  - apply String.eqb_eq in E. subst. now rewrite get_delete_same.
  - apply String.eqb_neq in E. rewrite get_delete_other by congruence. reflexivity.
Qed.

Lemma get_In k v m : Assoc.get k m = Some v -> In (k, v) m.
Proof.
  induction m as [|[k' v'] r IH]; simpl; [discriminate|].
  destruct (String.eqb k k') eqn:E.
  - apply String.eqb_eq in E. intros [= ->]. left. now subst.
  - intros H. right. now apply IH.
Qed.

Lemma get_None_keys k m : Assoc.get k m = None <-> ~ In k (Assoc.keys m).
Proof.
  induction m as [|[k' v'] r IH]; simpl.
  - tauto.
  - destruct (String.eqb k k') eqn:E.
    + apply String.eqb_eq in E. subst. split; [discriminate|]. intros H. exfalso. tauto.
    + apply String.eqb_neq in E. rewrite IH. split.
      * intros H [H1|H1]; [congruence|tauto].
      * tauto.
Qed.

Lemma In_get k v m : NoDup (Assoc.keys m) -> In (k, v) m -> Assoc.get k m = Some v.
Proof.
  induction m as [|[k' v'] r IH]; simpl; [tauto|].
  intros ND [H|H].
  - injection H as -> ->. now rewrite String.eqb_refl.
  - inversion ND as [|? ? Hn ND']; subst.
    destruct (String.eqb k k') eqn:E.
    + apply String.eqb_eq in E. subst. exfalso. apply Hn.
      change (In (fst (k', v)) (map fst r)). now apply in_map.
    + now apply IH.
Qed.

Lemma keys_set k v m :
  Assoc.keys (Assoc.set k v m)
  = if Assoc.has k m then Assoc.keys m else Assoc.keys m ++ [k].
Proof.
  unfold Assoc.has. induction m as [|[k' v'] r IH]; simpl; [reflexivity|].
  destruct (String.eqb k k') eqn:E; simpl; [reflexivity|].
  rewrite IH. now destruct (Assoc.get k r).
Qed.

Lemma NoDup_keys_set k v m :
  NoDup (Assoc.keys m) -> NoDup (Assoc.keys (Assoc.set k v m)).
Proof.
  intros ND. rewrite keys_set. destruct (Assoc.has k m) eqn:E; [exact ND|].
  unfold Assoc.has in E. destruct (Assoc.get k m) eqn:G; [discriminate|].
  apply get_None_keys in G.
  apply (Permutation_NoDup (l := k :: Assoc.keys m)).
  - apply Permutation_cons_append.
  - now constructor.
Qed.

End AssocFacts.

(** ** Plain objects *)

Section ObjectFacts.
Context {V : Type}.
Implicit Types (o : Assoc.t V) (k : string).

Lemma insert_index_perm i (e : string * V) l :
  Permutation (insert_index i e l) ((i, e) :: l).
Proof.
  induction l as [|[j e'] r IH]; simpl; [reflexivity|].
  destruct (i <=? j)%N; [reflexivity|].
  rewrite IH. apply perm_swap.
Qed.

(** [Object.entries] lists every own property once. *)
Lemma Object_entries_perm o : Permutation (Object_entries o) o.
Proof.
  unfold Object_entries. induction o as [|[k v] r IH]; simpl; [reflexivity|].
  destruct (array_index k) as [i|].
  - rewrite insert_index_perm. simpl. now constructor.
  - rewrite <- Permutation_middle. now constructor.
Qed.

Lemma Object_entries_In o e : In e (Object_entries o) <-> In e o.
Proof.
  split; apply Permutation_in;
    [apply Object_entries_perm | symmetry; apply Object_entries_perm].
Qed.

Lemma Object_entries_NoDup o :
  NoDup (Assoc.keys o) -> NoDup (map fst (Object_entries o)).
Proof.
  apply Permutation_NoDup. apply Permutation_map. symmetry.
  apply Object_entries_perm.
Qed.

Lemma fold_set_NoDup (es : list (string * V)) o :
  NoDup (Assoc.keys o) ->
  NoDup (Assoc.keys (fold_left (fun o e => Assoc.set (fst e) (snd e) o) es o)).
Proof.
  revert o. induction es as [|e r IH]; simpl; intros o ND; [exact ND|].
  apply IH. now apply NoDup_keys_set.
Qed.

Lemma Object_fromEntries_NoDup (es : list (string * V)) :
  NoDup (Assoc.keys (Object_fromEntries es)).
Proof. apply fold_set_NoDup. constructor. Qed.

(** An object built from the entries [(k, f k)]: its keys are the [k]s. *)
Lemma get_fold_set_map (f : string -> V) (ks : list string) o k :
  Assoc.get k
    (fold_left (fun o e => Assoc.set (fst e) (snd e) o)
       (map (fun k => (k, f k)) ks) o)
  = if existsb (String.eqb k) ks then Some (f k) else Assoc.get k o.
Proof.
  revert o. induction ks as [|k0 r IH]; simpl; intros o; [reflexivity|].
  rewrite IH. destruct (existsb (String.eqb k) r).
  - now rewrite orb_true_r.
  - rewrite orb_false_r. destruct (String.eqb k k0) eqn:E.
    + apply String.eqb_eq in E. subst. apply get_set_same.
    + apply String.eqb_neq in E. apply get_set_other. congruence.
Qed.

Lemma Object_fromEntries_map_In (f : string -> V) (ks : list string) k v :
  In (k, v) (Object_fromEntries (map (fun k => (k, f k)) ks))
  <-> In k ks /\ v = f k.
Proof.
  assert (G := get_fold_set_map f ks [] k).
  fold (Object_fromEntries (map (fun k => (k, f k)) ks)) in G.
  split.
  - intros H. apply (In_get _ _ _ (Object_fromEntries_NoDup _)) in H.
    rewrite H in G. destruct (existsb (String.eqb k) ks) eqn:E; [|discriminate].
    apply existsb_exists in E. destruct E as [x [Hx E]].
    apply String.eqb_eq in E. subst x. split; [exact Hx|congruence].
  - intros [Hk ->]. apply get_In. rewrite G.
    replace (existsb (String.eqb k) ks) with true; [reflexivity|].
    symmetry. apply existsb_exists. exists k. split; [exact Hk|apply String.eqb_refl].
Qed.

End ObjectFacts.

(** ** Grouping *)

Section GroupFacts.
Context {T : Type} (getGroupId : T -> string).

Lemma group_fold l acc k :
  Assoc.get k (fold_left (group_step getGroupId) l acc)
  = match Assoc.get k acc, filter (of_group getGroupId k) l with
    | Some a, more => Some (a ++ more)
    | None, [] => None
    | None, more => Some more
    end.
Proof.
  revert acc. induction l as [|x r IH]; simpl; intros acc.
  - destruct (Assoc.get k acc); [now rewrite app_nil_r|reflexivity].
  - rewrite IH. unfold group_step, of_group. cbv zeta.
    destruct (String.eqb (getGroupId x) k) eqn:E.
    + apply String.eqb_eq in E. subst k.
      destruct (Assoc.get (getGroupId x) acc) as [a|]; rewrite get_set_same.
      * now rewrite <- app_assoc.
      * reflexivity.
    + apply String.eqb_neq in E.
      destruct (Assoc.get (getGroupId x) acc) as [a|];
        now rewrite get_set_other by exact E.
Qed.

Lemma group_fold_NoDup l acc :
  NoDup (Assoc.keys acc) ->
  NoDup (Assoc.keys (fold_left (group_step getGroupId) l acc)).
Proof.
  revert acc. induction l as [|x r IH]; simpl; intros acc ND; [exact ND|].
  apply IH. unfold group_step. cbv zeta.
  destruct (Assoc.get (getGroupId x) acc); now apply NoDup_keys_set.
Qed.

(** The group of a key holds the items of that key, in input order; a key
    with no item has no group. *)
Lemma get_group l k :
  Assoc.get k (group l getGroupId)
  = match filter (of_group getGroupId k) l with
    | [] => None
    | more => Some more
    end.
Proof. apply (group_fold l [] k). Qed.

Lemma group_NoDup l : NoDup (Assoc.keys (group l getGroupId)).
Proof. apply (group_fold_NoDup l []). constructor. Qed.

End GroupFacts.

(** ** The refresh *)

Section RefreshFacts.
Context {ext : Externals}.

Lemma fold_setDepartures_miss (es : list (string * list RawDeparture)) cache k :
  ~ In k (map fst es) ->
  Assoc.get k (fold_left setDepartures es cache) = Assoc.get k cache.
Proof.
  revert cache. induction es as [|[k0 x0] r IH]; simpl; intros cache H; [reflexivity|].
  rewrite IH; [|intros Hr; apply H; now right].
  unfold setDepartures. simpl.
  apply get_set_other. intros ->. apply H. now left.
Qed.

Lemma fold_setDepartures_hit (es : list (string * list RawDeparture)) cache k x :
  NoDup (map fst es) -> In (k, x) es ->
  Assoc.get k (fold_left setDepartures es cache)
  = Some (map getParsedDeparture x).
Proof.
  revert cache. induction es as [|[k0 x0] r IH]; simpl; intros cache ND H; [tauto|].
  inversion ND as [|? ? Hn ND']; subst.
  destruct H as [H|H].
  - injection H as -> ->. rewrite fold_setDepartures_miss by exact Hn.
    apply get_set_same.
  - now apply IH.
Qed.

(** Lines 51-62 on one stop: the entry is replaced by the departures the
    response has for the stop, and kept when it has none. *)
Lemma updateDepartures_get res st stopID :
  Assoc.get stopID (departuresByStopID (updateDepartures res st))
  = match filter (of_group stop_id stopID) (departures res) with
    | [] => Assoc.get stopID (departuresByStopID st)
    | returned => Some (map getParsedDeparture returned)
    end.
Proof.
  unfold updateDepartures. destruct (departures res) as [|d ds] eqn:D; [reflexivity|].
  cbn [departuresByStopID]. rewrite <- D.
  pose proof (get_group stop_id (departures res) stopID) as G.
  pose proof (Object_entries_NoDup _ (group_NoDup stop_id (departures res))) as ND.
  destruct (filter (of_group stop_id stopID) (departures res)) as [|y ys].
  - apply fold_setDepartures_miss. intros H.
    apply get_None_keys in G. apply G.
    apply in_map_iff in H. destruct H as [e [He H]].
    apply (proj1 (Object_entries_In _ _)) in H. unfold Assoc.keys. rewrite <- He.
    exact (in_map fst _ _ H).
  - apply fold_setDepartures_hit; [exact ND|].
    apply Object_entries_In. now apply get_In.
Qed.

Lemma updateDepartures_frame res st :
  intervalId (updateDepartures res st) = intervalId st
  /\ subscribedStopIDsByClientID (updateDepartures res st)
     = subscribedStopIDsByClientID st
  /\ wsByClientID (updateDepartures res st) = wsByClientID st.
Proof. unfold updateDepartures. now destruct (departures res). Qed.

Lemma fetchData_resume_state clientID res st :
  fst (fst (fetchData_resume clientID res st)) = updateDepartures res st.
Proof.
  unfold fetchData_resume.
  destruct (departures res) as [|d ds] eqn:D, (target clientID) as [c|].
  - destruct (Assoc.get c _); [|reflexivity].
    now destruct (getStringifiedDataForClientID c _).
  - unfold updateDepartures. now rewrite D.
  - destruct (Assoc.get c _); [|reflexivity].
    now destruct (getStringifiedDataForClientID c _).
  - now destruct (sendToAll _ _).
Qed.

Lemma fetchData_settle_frame clientID outcome st :
  let st' := fst (fst (fetchData_settle clientID outcome st)) in
  intervalId st' = intervalId st
  /\ subscribedStopIDsByClientID st' = subscribedStopIDsByClientID st
  /\ wsByClientID st' = wsByClientID st.
Proof.
  destruct outcome as [e|res]; simpl; [tauto|].
  rewrite fetchData_resume_state. apply updateDepartures_frame.
Qed.

(** C7. A refresh leaves the cache entry of a stop as it was, absent
    included, when the gateway's answer has no departure for the stop; an
    entry is overwritten only for a stop with at least one returned
    departure, by exactly the parsed departures returned for it; and no
    refresh makes an entry empty. *)
Theorem C7_stop_without_departures_keeps_entry :
  forall (clientID : option string) (outcome : Error + ApiResponse)
         (st : State) (stopID : string),
    let st' := fst (fst (fetchData_settle clientID outcome st)) in
    let before := Assoc.get stopID (departuresByStopID st) in
    let after := Assoc.get stopID (departuresByStopID st') in
    (returned_for outcome stopID = [] -> after = before)
    /\ (after <> before ->
        returned_for outcome stopID <> []
        /\ after = Some (map getParsedDeparture (returned_for outcome stopID)))
    /\ (after = Some [] -> before = Some []).
Proof.
  intros clientID outcome st stopID st' before after.
  assert (E : after = match returned_for outcome stopID with
                      | [] => before
                      | returned => Some (map getParsedDeparture returned)
                      end).
  { subst st' before after. destruct outcome as [e|res]; simpl; [reflexivity|].
    rewrite fetchData_resume_state. apply updateDepartures_get. }
  clearbody st' before after.
  destruct (returned_for outcome stopID) as [|d ds]; rewrite E.
  - repeat split; congruence.
  - repeat split; try congruence. simpl. discriminate.
Qed.

End RefreshFacts.

(** ** The payload *)

Section PayloadFacts.
Context {ext : Externals}.

Lemma JSON_properties_In es k v :
  In (k, v) (JSON_properties es)
  <-> exists ds, v = JSON_array ds /\ In (k, Some ds) es.
Proof.
  induction es as [|[k0 [ds0|]] r IH]; simpl.
  - split; [tauto|]. now intros [ds [_ H]].
  - rewrite IH. split.
    + intros [H|[ds [Hv H]]].
      * injection H as <- <-. exists ds0. auto.
      * exists ds. auto.
    + intros [ds [Hv [H|H]]].
      * injection H as -> ->. left. now subst.
      * right. now exists ds.
  - rewrite IH. split.
    + intros [ds [Hv H]]. exists ds. auto.
    + intros [ds [Hv [H|H]]]; [discriminate|]. now exists ds.
Qed.

Lemma JSON_properties_keys es k :
  In k (map fst (JSON_properties es)) -> In k (map fst es).
Proof.
  induction es as [|[k0 [ds0|]] r IH]; simpl; tauto.
Qed.

Lemma JSON_properties_NoDup es :
  NoDup (map fst es) -> NoDup (map fst (JSON_properties es)).
Proof.
  induction es as [|[k0 [ds0|]] r IH]; simpl; intros ND;
    inversion ND as [|? ? Hn ND']; subst; auto.
  constructor; auto. intros H. apply Hn. now apply JSON_properties_keys.
Qed.

(** What [getStringifiedDataForClientID] returns: the text of an object
    with one property per subscribed stop that the cache holds. *)
Lemma getStringifiedDataForClientID_Normal clientID st data :
  getStringifiedDataForClientID clientID st = Normal data ->
  exists stopIDs props,
    Assoc.get clientID (subscribedStopIDsByClientID st) = Some stopIDs
    /\ data = JSON_object_text props
    /\ NoDup (map fst props)
    /\ forall k v,
         In (k, v) props
         <-> In k stopIDs
             /\ exists ds, Assoc.get k (departuresByStopID st) = Some ds
                           /\ v = JSON_array ds.
Proof.
  unfold getStringifiedDataForClientID, dataForClient.
  destruct (Assoc.get clientID (subscribedStopIDsByClientID st)) as [stopIDs|];
    [|discriminate].
  intros [= <-]. exists stopIDs. eexists. split; [reflexivity|].
  split; [reflexivity|]. split.
  - apply JSON_properties_NoDup, Object_entries_NoDup, Object_fromEntries_NoDup.
  - intros k v. rewrite JSON_properties_In. split.
    + intros [ds [-> H]]. apply (proj1 (Object_entries_In _ _)) in H.
      apply Object_fromEntries_map_In in H. destruct H as [Hk E].
      split; [exact Hk|]. exists ds. auto.
    + intros [Hk [ds [G ->]]]. exists ds. split; [reflexivity|].
      apply Object_entries_In.
      apply (Object_fromEntries_map_In
               (fun stopID => Assoc.get stopID (departuresByStopID st))).
      auto.
Qed.

Lemma sendToAll_effects clients st effs c eff :
  sendToAll clients st = (effs, c) -> In eff effs ->
  exists clientID ws data,
    eff = ws_send ws data /\ In (clientID, ws) clients
    /\ getStringifiedDataForClientID clientID st = Normal data.
Proof.
  revert effs c. induction clients as [|[clientID ws] r IH]; simpl; intros effs c.
  - intros [= <- _]. intros [].
  - destruct (getStringifiedDataForClientID clientID st) as [data|e] eqn:G.
    + destruct (sendToAll r st) as [effs' c'] eqn:S.
      intros [= <- _]. intros [H|H].
      * exists clientID, ws, data. auto.
      * destruct (IH effs' c' eq_refl H) as [c0 [ws0 [d0 [E [I G0]]]]].
        exists c0, ws0, d0. auto.
    + intros [= <- _]. intros [].
Qed.

(** Every effect of the settled part of a refresh is a frame sent to a
    stored handle, holding that client's stringified data. *)
Lemma targeted_send_effects t st effs c eff :
  match Assoc.get t (wsByClientID st) with
  | None => (st, [], Throw undefined_is_not_an_object)
  | Some ws =>
      match getStringifiedDataForClientID t st with
      | Normal data => (st, [ws_send ws data], Normal tt)
      | Throw e => (st, [], Throw e)
      end
  end = (st, effs, c) ->
  In eff effs ->
  exists ws data,
    eff = ws_send ws data /\ In (t, ws) (wsByClientID st)
    /\ getStringifiedDataForClientID t st = Normal data.
Proof.
  destruct (Assoc.get t (wsByClientID st)) as [ws|] eqn:W.
  - destruct (getStringifiedDataForClientID t st) as [data|e] eqn:G.
    + intros E H. injection E as <- _. destruct H as [H|[]].
      exists ws, data. auto using get_In.
    + intros E H. injection E as <- _. destruct H.
  - intros E H. injection E as <- _. destruct H.
Qed.

Lemma fetchData_settle_effects clientID outcome st st' effs c eff :
  fetchData_settle clientID outcome st = (st', effs, c) -> In eff effs ->
  exists client ws data,
    eff = ws_send ws data /\ In (client, ws) (wsByClientID st')
    /\ getStringifiedDataForClientID client st' = Normal data.
Proof.
  destruct outcome as [e|res]; simpl.
  - intros E H. injection E as _ <- _. destruct H.
  - intros E H.
    pose proof (fetchData_resume_state clientID res st) as S.
    rewrite E in S. simpl in S. subst st'.
    unfold fetchData_resume in E.
    destruct (target clientID) as [t|].
    + exists t.
      apply (targeted_send_effects t (updateDepartures res st) effs c).
      * now destruct (departures res).
      * exact H.
    + destruct (departures res) as [|d ds] eqn:D.
      * injection E as _ <- _. destruct H.
      * destruct (sendToAll _ _) as [effs' c'] eqn:A.
        injection E as <- _.
        apply (sendToAll_effects _ _ _ _ _ A H).
Qed.

(** C1, amended. Every frame a refresh sends, targeted or periodic, goes to
    a stored handle and is the text of a JSON object that has exactly one
    property for each stop of that client's current subscription that is in
    the cache, holding the cached array; a subscribed stop that is not in
    the cache has no property, and no property holds [null]. *)
Theorem C1_payload_has_the_cached_subscribed_stops :
  forall (clientID : option string) (outcome : Error + ApiResponse)
         (st st' : State) (effs : list Effect) (c : Completion unit)
         (ws : ServerWebSocket) (data : string),
    fetchData_settle clientID outcome st = (st', effs, c) ->
    In (ws_send ws data) effs ->
    exists client stopIDs props,
      In (client, ws) (wsByClientID st')
      /\ Assoc.get client (subscribedStopIDsByClientID st') = Some stopIDs
      /\ data = JSON_object_text props
      /\ NoDup (map fst props)
      /\ forall k v,
           In (k, v) props
           <-> In k stopIDs
               /\ exists ds, Assoc.get k (departuresByStopID st') = Some ds
                             /\ v = JSON_array ds.
Proof.
  intros clientID outcome st st' effs c ws data R H.
  destruct (fetchData_settle_effects _ _ _ _ _ _ _ R H)
    as [client [ws0 [d0 [E [I G]]]]].
  injection E as <- <-.
  destruct (getStringifiedDataForClientID_Normal _ _ _ G)
    as [stopIDs [props [Hs [Hd [ND Hp]]]]].
  exists client, stopIDs, props. auto.
Qed.

End PayloadFacts.

(** ** The handlers, one by one *)

Section HandlerFacts.
Context {ext : Externals}.

Lemma In_set_inv {V : Type} k (v : V) m e :
  In e (Assoc.set k v m) -> e = (k, v) \/ In e m.
Proof.
  induction m as [|[k' v'] r IH]; simpl.
  - intros [H|[]]. now left.
  - destruct (String.eqb k k') eqn:E; simpl.
    + apply String.eqb_eq in E. subst k'. intros [H|H]; auto.
    + intros [H|H]; auto. destruct (IH H); auto.
Qed.

Lemma In_delete_inv {V : Type} k (m : Assoc.t V) e :
  In e (Assoc.delete k m) -> In e m.
Proof.
  induction m as [|[k' v'] r IH]; simpl; [tauto|].
  destruct (String.eqb k k'); simpl; intuition.
Qed.

Lemma has_size {V : Type} k (m : Assoc.t V) :
  Assoc.has k m = true -> 0 < Assoc.size m.
Proof. destruct m; [discriminate|simpl; lia]. Qed.

Lemma set_not_nil {V : Type} k (v : V) m : Assoc.set k v m <> [].
Proof. destruct m as [|[k' v'] r]; simpl; [|destruct (String.eqb k k')]; discriminate. Qed.

(** The handshake touches the registry only, and only by storing the new
    identifier's stop list. *)
Lemma fetch_state req uuid st st' response :
  fetch req uuid st = (st', response) ->
  intervalId st' = intervalId st
  /\ wsByClientID st' = wsByClientID st
  /\ departuresByStopID st' = departuresByStopID st
  /\ ((st' = st /\ response <> None)
      \/ exists data,
           subscribedStopIDsByClientID st'
           = Assoc.set uuid data (subscribedStopIDsByClientID st)).
Proof.
  unfold fetch.
  destruct (stopIDsHeader req) as [raw|];
    [destruct (String.eqb raw EmptyString);
     [|destruct (JSON_parse raw) as [e|v];
       [|destruct (StopIDsSchema_safeParse v) as [m|data];
         [|destruct (upgrades req)]]]|];
    intros [= <- <-]; repeat split;
    try (left; split; [reflexivity|discriminate]);
    right; exists data; reflexivity.
Qed.

Lemma fetch_upgraded req uuid st st' :
  fetch req uuid st = (st', None) ->
  Assoc.has uuid (subscribedStopIDsByClientID st') = true.
Proof.
  intros F. destruct (fetch_state _ _ _ _ _ F) as [_ [_ [_ [[_ N]|[data E]]]]].
  - congruence.
  - rewrite E, has_set, String.eqb_refl. reflexivity.
Qed.

Lemma open_state ws timer st st' effs started :
  open ws timer st = (st', effs, started) ->
  subscribedStopIDsByClientID st' = subscribedStopIDsByClientID st
  /\ wsByClientID st' = Assoc.set (data_clientID ws) ws (wsByClientID st)
  /\ departuresByStopID st' = departuresByStopID st
  /\ (effs, started)
     = (let '(es, s) :=
          fetchData_start (Some (data_clientID ws))
            (mkState (intervalId st) (subscribedStopIDsByClientID st)
               (Assoc.set (data_clientID ws) ws (wsByClientID st))
               (departuresByStopID st)) in
        (es ++ match intervalId st with
               | Some _ => []
               | None => [setInterval INTERVAL timer]
               end, s))
  /\ intervalId st'
     = match intervalId st with Some id => Some id | None => Some timer end.
Proof.
  unfold open. cbv zeta.
  destruct (fetchData_start _ _) as [es s]. cbn [intervalId].
  destruct (intervalId st) as [id|]; intros [= <- <- <-]; cbn;
    rewrite ?app_nil_r; auto.
Qed.

Lemma message_state ws msg st st' effs :
  message ws msg st = (st', effs) ->
  intervalId st' = intervalId st
  /\ wsByClientID st' = wsByClientID st
  /\ departuresByStopID st' = departuresByStopID st
  /\ (st' = st
      \/ exists subscribe,
           subscribedStopIDsByClientID st'
           = Assoc.set (data_clientID ws) subscribe
               (subscribedStopIDsByClientID st)).
Proof.
  unfold message.
  destruct msg as [s|];
    [destruct (JSON_parse s) as [e|v];
     [|destruct (SubscribeSchema_safeParse v) as [m|subscribe]]|];
    intros [= <- <-]; repeat split; auto.
  right. now exists subscribe.
Qed.

Lemma close_state ws st st' effs :
  close ws st = (st', effs) ->
  subscribedStopIDsByClientID st'
  = Assoc.delete (data_clientID ws) (subscribedStopIDsByClientID st)
  /\ wsByClientID st' = Assoc.delete (data_clientID ws) (wsByClientID st)
  /\ departuresByStopID st' = departuresByStopID st
  /\ ((intervalId st' = intervalId st /\ effs = []
       /\ (intervalId st = None
           \/ 0 < Assoc.size (subscribedStopIDsByClientID st')))
      \/ (exists id, intervalId st = Some id /\ intervalId st' = None
                     /\ effs = [clearInterval id]
                     /\ subscribedStopIDsByClientID st' = [])).
Proof.
  unfold close. cbv zeta. cbn [intervalId].
  destruct (intervalId st) as [id|] eqn:I.
  - destruct (0 <? _) eqn:Z; intros [= <- <-]; cbn; repeat split; auto.
    + left. repeat split; auto. right. now apply Nat.ltb_lt in Z.
    + right. exists id. repeat split; auto.
      apply Nat.ltb_ge in Z. unfold Assoc.size in Z.
      destruct (Assoc.delete _ _); [reflexivity|simpl in Z; lia].
  - intros [= <- <-]; cbn; repeat split; auto.
Qed.

End HandlerFacts.

(** ** Reachable worlds *)

Section WorldFacts.
Context {ext : Externals}.

Lemma run_timers_app effs effs' ts :
  run_timers (effs ++ effs') ts = run_timers effs' (run_timers effs ts).
Proof.
  revert ts. induction effs as [|[] r IH]; simpl; intros ts; auto.
Qed.

Lemma fetchData_start_timers clientID st effs started ts :
  fetchData_start clientID st = (effs, started) -> run_timers effs ts = ts.
Proof.
  unfold fetchData_start. destruct (stopIDsToFetch clientID st);
    intros [= <- _]; reflexivity.
Qed.

Lemma mem_In x l : mem x l = true <-> In x l.
Proof.
  unfold mem. rewrite existsb_exists. split.
  - intros [y [H E]]. apply String.eqb_eq in E. now subst.
  - intros H. exists x. split; [exact H|apply String.eqb_refl].
Qed.

Lemma consistent_boot : consistent boot.
Proof. split; simpl; try discriminate; try tauto; congruence. Qed.

Lemma consistent_request w req uuid w' :
  consistent w -> run w (request req uuid) = Some w' -> consistent w'.
Proof.
  intros C. unfold run.
  destruct (String.eqb uuid EmptyString || mem uuid (issued w)) eqn:Fresh;
    [discriminate|].
  apply orb_false_elim in Fresh. destruct Fresh as [Truthy Fresh].
  apply String.eqb_neq in Truthy.
  assert (New : ~ In uuid (issued w)).
  { intros H. apply mem_In in H. congruence. }
  destruct (fetch req uuid (state w)) as [st' response] eqn:F.
  intros [= <-].
  destruct (fetch_state _ _ _ _ _ F) as [Ei [Ew [Ed Er]]].
  assert (Grow : forall c,
             Assoc.has c (subscribedStopIDsByClientID (state w)) = true ->
             Assoc.has c (subscribedStopIDsByClientID st') = true).
  { intros c H. destruct Er as [[-> _]|[data ->]]; [exact H|].
    rewrite has_set, H. apply orb_true_r. }
  assert (Old : forall c,
             Assoc.get c (match response with
                          | None => Assoc.set uuid Upgraded (connections w)
                          | Some _ => connections w
                          end) <> None ->
             (c = uuid /\ response = None)
             \/ (c <> uuid /\ Assoc.get c (connections w) <> None)).
  { intros c H. destruct (string_dec c uuid) as [->|N].
    - destruct response; [|now left].
      exfalso. apply New. now apply (socket_issued w C).
    - right. split; [exact N|]. destruct response; [exact H|].
      rewrite get_set_other in H by congruence. exact H. }
  split; cbn [state connections issued timers]; rewrite ?Ei, ?Ew.
  - intros c H. pose proof (handle_opened w C c H) as O.
    destruct response; [exact O|]. rewrite get_set_other; [exact O|].
    intros <-. apply New. apply (socket_issued w C). congruence.
  - intros c H. apply (opened_handle w C).
    destruct response; [exact H|].
    destruct (string_dec uuid c) as [<-|N].
    + rewrite get_set_same in H. discriminate.
    + now rewrite get_set_other in H.
  - intros c H. destruct (Old c H) as [[-> ->]|[_ H']].
    + apply (fetch_upgraded _ _ _ _ F).
    + apply Grow. now apply (socket_subscribed w C).
  - intros c H. destruct (Old c H) as [[-> _]|[_ H']].
    + now left.
    + right. now apply (socket_issued w C).
  - intros c [<-|H]; [exact Truthy|now apply (issued_truthy w C)].
  - apply (handle_own w C).
  - apply (one_timer w C).
  - apply (timer_when_handle w C).
  - intros H. destruct Er as [[-> _]|[data E]].
    + now apply (no_timer_when_unsubscribed w C).
    + rewrite E in H. now apply set_not_nil in H.
Qed.

Lemma consistent_opens w clientID w' :
  consistent w -> run w (opens clientID) = Some w' -> consistent w'.
Proof.
  intros C. unfold run.
  destruct (Assoc.get clientID (connections w)) as [[|]|] eqn:G;
    try discriminate.
  destruct (open _ _ _) as [[st' effs] started] eqn:O.
  intros [= <-].
  destruct (open_state _ _ _ _ _ _ O) as [Er [Ew [Ed [Ee Ei]]]].
  cbn [data_clientID] in *.
  assert (Sub : Assoc.has clientID (subscribedStopIDsByClientID (state w)) = true).
  { apply (socket_subscribed w C). congruence. }
  split; cbn [state connections issued timers]; rewrite ?Er, ?Ew.
  - intros c. rewrite has_set. destruct (String.eqb c clientID) eqn:E.
    + apply String.eqb_eq in E. subst. intros _. apply get_set_same.
    + apply String.eqb_neq in E. simpl. intros H.
      rewrite get_set_other by congruence. now apply (handle_opened w C).
  - intros c. rewrite has_set. destruct (String.eqb c clientID) eqn:E; [reflexivity|].
    apply String.eqb_neq in E. rewrite get_set_other by congruence.
    apply (opened_handle w C).
  - intros c H. destruct (string_dec clientID c) as [<-|N]; [exact Sub|].
    rewrite get_set_other in H by exact N. now apply (socket_subscribed w C).
  - intros c H. apply (socket_issued w C).
    destruct (string_dec clientID c) as [<-|N]; [congruence|].
    now rewrite get_set_other in H.
  - apply (issued_truthy w C).
  - intros c ws H. apply In_set_inv in H. destruct H as [[= -> ->]|H].
    + reflexivity.
    + now apply (handle_own w C).
  - destruct (fetchData_start _ _) as [es s] eqn:S in Ee.
    injection Ee as -> _. rewrite run_timers_app.
    rewrite (fetchData_start_timers _ _ _ _ _ S).
    rewrite Ei, (one_timer w C). now destruct (intervalId (state w)).
  - intros c _. rewrite Ei. destruct (intervalId (state w)); discriminate.
  - intros H. rewrite H in Sub. discriminate.
Qed.

Lemma consistent_receives w clientID msg w' :
  consistent w -> run w (receives clientID msg) = Some w' -> consistent w'.
Proof.
  intros C. unfold run.
  destruct (Assoc.get clientID (connections w)) as [[|]|] eqn:G;
    try discriminate.
  destruct (message _ _ _) as [st' effs] eqn:M.
  intros [= <-].
  destruct (message_state _ _ _ _ _ M) as [Ei [Ew [Ed Er]]].
  split; cbn [state connections issued timers]; rewrite ?Ei, ?Ew.
  - apply (handle_opened w C).
  - apply (opened_handle w C).
  - intros c H. apply (socket_subscribed w C) in H.
    destruct Er as [->|[subscribe ->]]; [exact H|].
    rewrite has_set, H. apply orb_true_r.
  - apply (socket_issued w C).
  - apply (issued_truthy w C).
  - apply (handle_own w C).
  - apply (one_timer w C).
  - apply (timer_when_handle w C).
  - intros H. destruct Er as [->|[subscribe E]].
    + now apply (no_timer_when_unsubscribed w C).
    + rewrite E in H. now apply set_not_nil in H.
Qed.

Lemma consistent_closes w clientID w' :
  consistent w -> run w (closes clientID) = Some w' -> consistent w'.
Proof.
  intros C. unfold run.
  destruct (Assoc.get clientID (connections w)) as [[|]|] eqn:G;
    try discriminate.
  destruct (close _ _) as [st' effs] eqn:K.
  intros [= <-].
  destruct (close_state _ _ _ _ K) as [Er [Ew [Ed Et]]].
  cbn [data_clientID] in *.
  assert (Keep : forall c,
             Assoc.has c (wsByClientID st') = true ->
             c <> clientID
             /\ Assoc.has c (wsByClientID (state w)) = true
             /\ Assoc.has c (subscribedStopIDsByClientID st') = true).
  { intros c. rewrite Ew, Er, !has_delete.
    destruct (String.eqb c clientID) eqn:E; [discriminate|].
    apply String.eqb_neq in E. simpl. intros H. repeat split; auto.
    apply (socket_subscribed w C). rewrite (handle_opened w C c H). discriminate. }
  split; cbn [state connections issued timers].
  - intros c H. destruct (Keep c H) as [N [H' _]].
    rewrite get_delete_other by congruence. now apply (handle_opened w C).
  - intros c H. destruct (string_dec clientID c) as [<-|N].
    + rewrite get_delete_same in H. discriminate.
    + rewrite get_delete_other in H by exact N.
      rewrite Ew, has_delete. rewrite (opened_handle w C c H).
      replace (String.eqb c clientID) with false; [reflexivity|].
      symmetry. apply String.eqb_neq. congruence.
  - intros c H. destruct (string_dec clientID c) as [<-|N].
    + rewrite get_delete_same in H. congruence.
    + rewrite get_delete_other in H by exact N.
      rewrite Er, has_delete. rewrite (socket_subscribed w C c H).
      replace (String.eqb c clientID) with false; [reflexivity|].
      symmetry. apply String.eqb_neq. congruence.
  - intros c H. apply (socket_issued w C).
    destruct (string_dec clientID c) as [<-|N].
    + rewrite get_delete_same in H. congruence.
    + now rewrite get_delete_other in H.
  - apply (issued_truthy w C).
  - intros c ws H. rewrite Ew in H. apply In_delete_inv in H.
    now apply (handle_own w C).
  - rewrite (one_timer w C).
    destruct Et as [[-> [-> _]]|[id [I [-> [-> _]]]]]; [reflexivity|].
    rewrite I. simpl. destruct (Nat.eq_dec id id); [reflexivity|congruence].
  - intros c H. destruct (Keep c H) as [_ [H' S]].
    destruct Et as [[-> _]|[id [_ [_ [_ E]]]]].
    + now apply (timer_when_handle w C c).
    + rewrite E in S. discriminate.
  - intros H. destruct Et as [[-> [_ [I|Z]]]|[id [_ [I _]]]]; auto.
    rewrite H in Z. simpl in Z. lia.
Qed.

Lemma consistent_tick w id w' :
  consistent w -> run w (tick id) = Some w' -> consistent w'.
Proof.
  intros C. unfold run.
  destruct (existsb (Nat.eqb id) (timers w)); [|discriminate].
  destruct (fetchData_start None (state w)) as [effs started].
  intros [= <-]. destruct C. split; assumption.
Qed.

Lemma consistent_settles w n outcome w' :
  consistent w -> run w (settles n outcome) = Some w' -> consistent w'.
Proof.
  intros C. unfold run.
  destruct (nth_error (pending w) n) as [clientID|]; [|discriminate].
  pose proof (fetchData_settle_frame clientID outcome (state w)) as F.
  destruct (fetchData_settle clientID outcome (state w)) as [[st' effs] c].
  simpl in F. destruct F as [Ei [Er Ew]].
  intros [= <-]. destruct C.
  split; cbn [state connections issued timers]; rewrite ?Ei, ?Er, ?Ew;
    assumption.
Qed.

Lemma consistent_run w e w' : consistent w -> run w e = Some w' -> consistent w'.
Proof.
  destruct e.
  - apply consistent_request.
  - apply consistent_opens.
  - apply consistent_receives.
  - apply consistent_closes.
  - apply consistent_tick.
  - apply consistent_settles.
Qed.

Lemma reachable_consistent w : reachable w -> consistent w.
Proof.
  induction 1 as [|w e w' _ IH R].
  - apply consistent_boot.
  - exact (consistent_run _ _ _ IH R).
Qed.

Lemma runs_reachable es : forall w w',
  reachable w -> runs w es = Some w' -> reachable w'.
Proof.
  induction es as [|e r IH]; simpl; intros w w' R.
  - now intros [= <-].
  - destruct (run w e) as [w1|] eqn:E; [|discriminate].
    apply IH. exact (reachable_run _ _ _ R E).
Qed.

Lemma after_reachable es : reachable (after es).
Proof.
  unfold after. destruct (runs boot es) as [w|] eqn:E.
  - exact (runs_reachable es boot w reachable_boot E).
  - exact reachable_boot.
Qed.

End WorldFacts.

(** ** The claims about the handlers and the refresh *)

Section Claims.
Context {ext : Externals}.

Lemma has_get {V : Type} k (m : Assoc.t V) :
  Assoc.has k m = true <-> exists v, Assoc.get k m = Some v.
Proof.
  unfold Assoc.has. destruct (Assoc.get k m) as [v|].
  - split; [now exists v|reflexivity].
  - split; [discriminate|]. now intros [v H].
Qed.

Lemma truthy_target c : c <> EmptyString -> target (Some c) = Some c.
Proof.
  intros N. unfold target. apply String.eqb_neq in N. now rewrite N.
Qed.

(** C10. In every reachable world a client identifier with a stored handle
    has a registry entry, so composing its payload finds the entry: [open]
    runs only for an identifier the handshake has registered, [message]
    writes under a key that is already there and leaves the keys as they
    are, and [close] removes the handle and the entry together. *)
Theorem C10_stored_handle_has_registry_entry :
  forall w : World,
    reachable w ->
    (forall clientID,
        Assoc.has clientID (wsByClientID (state w)) = true ->
        Assoc.has clientID (subscribedStopIDsByClientID (state w)) = true
        /\ exists data,
             getStringifiedDataForClientID clientID (state w) = Normal data)
    /\ (forall clientID w',
           run w (opens clientID) = Some w' ->
           Assoc.has clientID (subscribedStopIDsByClientID (state w)) = true)
    /\ (forall clientID msg w',
           run w (receives clientID msg) = Some w' ->
           Assoc.has clientID (subscribedStopIDsByClientID (state w)) = true
           /\ Assoc.keys (subscribedStopIDsByClientID (state w'))
              = Assoc.keys (subscribedStopIDsByClientID (state w)))
    /\ (forall clientID w',
           run w (closes clientID) = Some w' ->
           Assoc.has clientID (wsByClientID (state w')) = false
           /\ Assoc.has clientID (subscribedStopIDsByClientID (state w')) = false).
Proof.
  intros w R. pose proof (reachable_consistent w R) as C.
  assert (Sub : forall clientID,
             Assoc.get clientID (connections w) = Some Opened ->
             Assoc.has clientID (subscribedStopIDsByClientID (state w)) = true).
  { intros clientID H. apply (socket_subscribed w C). congruence. }
  split; [|split; [|split]].
  - intros clientID H.
    pose proof (Sub _ (handle_opened w C _ H)) as S. split; [exact S|].
    apply has_get in S. destruct S as [stopIDs S].
    unfold getStringifiedDataForClientID, dataForClient. rewrite S. eauto.
  - intros clientID w' H. apply (socket_subscribed w C). unfold run in H.
    destruct (Assoc.get clientID (connections w)); [discriminate|discriminate].
  - intros clientID msg w' H. unfold run in H.
    destruct (Assoc.get clientID (connections w)) as [[|]|] eqn:G;
      try discriminate.
    pose proof (Sub _ G) as S. split; [exact S|].
    destruct (message _ _ _) as [st' effs] eqn:M. injection H as <-.
    destruct (message_state _ _ _ _ _ M) as [_ [_ [_ [->|[subscribe E]]]]];
      [reflexivity|].
    cbn [state data_clientID] in *. rewrite E, keys_set, S. reflexivity.
  - intros clientID w' H. unfold run in H.
    destruct (Assoc.get clientID (connections w)) as [[|]|]; try discriminate.
    destruct (close _ _) as [st' effs] eqn:K. injection H as <-.
    destruct (close_state _ _ _ _ K) as [Er [Ew _]].
    cbn [state data_clientID] in *.
    rewrite Er, Ew, !has_delete, String.eqb_refl. split; reflexivity.
Qed.

(** C2, amended. Every refresh calls the gateway, once, with the set it
    computed, empty or not: a tick with the stops of all subscriptions, an
    [open] with the stops of the new client that are not in the cache. What
    a tick skips, when the gateway's answer holds no departure, is the cache
    update and the sending. *)
Theorem C2_gateway_called_on_every_refresh :
  forall w : World,
    reachable w ->
    (forall id w',
        run w (tick id) = Some w' ->
        effects w'
        = effects w ++ [fetchApiData (getAllSubscribedStopIDs (state w))]
        /\ pending w' = pending w ++ [None])
    /\ (forall clientID w',
           run w (opens clientID) = Some w' ->
           exists stopIDs timerEffects,
             Assoc.get clientID (subscribedStopIDsByClientID (state w))
             = Some stopIDs
             /\ effects w'
                = effects w
                  ++ fetchApiData
                       (filter (fun stopID =>
                                  negb (Assoc.has stopID
                                          (departuresByStopID (state w))))
                               stopIDs)
                  :: timerEffects
             /\ (timerEffects = []
                 \/ timerEffects = [setInterval INTERVAL (nextTimer w)])
             /\ pending w' = pending w ++ [Some clientID])
    /\ (forall n w',
           nth_error (pending w) n = Some None ->
           run w (settles n (inr {| departures := [] |})) = Some w' ->
           state w' = state w /\ effects w' = effects w).
Proof.
  intros w R. pose proof (reachable_consistent w R) as C.
  split; [|split].
  - intros id w' H. unfold run in H.
    destruct (existsb (Nat.eqb id) (timers w)); [|discriminate].
    injection H as <-. simpl. auto.
  - intros clientID w' H. unfold run in H.
    destruct (Assoc.get clientID (connections w)) as [[|]|] eqn:G;
      try discriminate.
    assert (T : clientID <> EmptyString).
    { apply (issued_truthy w C), (socket_issued w C). congruence. }
    assert (S : Assoc.has clientID (subscribedStopIDsByClientID (state w)) = true).
    { apply (socket_subscribed w C). congruence. }
    apply has_get in S. destruct S as [stopIDs S].
    unfold open, fetchData_start, stopIDsToFetch in H.
    cbn [data_clientID subscribedStopIDsByClientID departuresByStopID intervalId]
      in H.
    rewrite (truthy_target _ T), S in H.
    exists stopIDs.
    destruct (intervalId (state w)); injection H as <-; cbn.
    + exists []. auto.
    + exists [setInterval INTERVAL (nextTimer w)]. auto.
  - intros n w' P H. unfold run in H. rewrite P in H.
    injection H as <-. simpl. rewrite app_nil_r. auto.
Qed.

(** C3, amended. When the gateway call of a refresh fails, the refresh ends
    with the gateway's error: the promise of [fetchData] is rejected with
    it and nothing in the server catches or logs it. The failed refresh
    changes no map and sends nothing; the interval stays scheduled and the
    sockets stay as they are. *)
Theorem C3_gateway_failure_rejects_the_refresh :
  forall (w : World) (n : nat) (e : Error) (w' : World),
    run w (settles n (inl e)) = Some w' ->
    rejections w' = rejections w ++ [e]
    /\ state w' = state w
    /\ effects w' = effects w
    /\ timers w' = timers w
    /\ connections w' = connections w.
Proof.
  intros w n e w' H. unfold run in H.
  destruct (nth_error (pending w) n) as [clientID|]; [|discriminate].
  injection H as <-. simpl. rewrite app_nil_r. auto.
Qed.

(** C9. A well-formed subscribe message on an opened socket puts the new
    stop list in place of the client's registry entry, whatever the entry
    was, leaves every other entry, the cache, the handles and the timer as
    they are, and does nothing to the outside: no gateway call is started
    and nothing is sent. *)
Theorem C9_subscribe_replaces_the_entry :
  forall (w : World) (clientID s : string) (v : unknown)
         (subscribe : list string) (w' : World),
    JSON_parse s = inr v ->
    SubscribeSchema_safeParse v = inr subscribe ->
    run w (receives clientID (Text s)) = Some w' ->
    Assoc.get clientID (subscribedStopIDsByClientID (state w')) = Some subscribe
    /\ (forall other,
           other <> clientID ->
           Assoc.get other (subscribedStopIDsByClientID (state w'))
           = Assoc.get other (subscribedStopIDsByClientID (state w)))
    /\ departuresByStopID (state w') = departuresByStopID (state w)
    /\ wsByClientID (state w') = wsByClientID (state w)
    /\ intervalId (state w') = intervalId (state w)
    /\ effects w' = effects w
    /\ pending w' = pending w
    /\ timers w' = timers w.
Proof.
  intros w clientID s v subscribe w' P V H. unfold run in H.
  destruct (Assoc.get clientID (connections w)) as [[|]|]; try discriminate.
  unfold message in H. rewrite P, V in H. injection H as <-.
  cbn. rewrite app_nil_r, get_set_same. repeat split.
  intros other N. apply get_set_other. congruence.
Qed.




(** X1. In every reachable world the runtime runs at most one interval,
    the one whose handle [intervalId] holds, and none when [intervalId] is
    [null]: [open] creates an interval only behind the guard
    [intervalId !== null], and [close] clears the one it holds. *)
Theorem X1_at_most_one_timer :
  forall w : World,
    reachable w ->
    timers w = match intervalId (state w) with Some id => [id] | None => [] end
    /\ List.length (timers w) <= 1.
Proof.
  intros w R. pose proof (one_timer w (reachable_consistent w R)) as T.
  split; [exact T|]. rewrite T. destruct (intervalId (state w)); simpl; lia.
Qed.

(** X2. In every reachable world the timer runs while a handle is stored,
    and does not run while the registry is empty. *)
Theorem X2_timer_runs_while_a_handle_is_stored :
  forall w : World,
    reachable w ->
    (wsByClientID (state w) <> [] -> intervalId (state w) <> None)
    /\ (subscribedStopIDsByClientID (state w) = [] ->
        intervalId (state w) = None).
Proof.
  intros w R. pose proof (reachable_consistent w R) as C. split.
  - destruct (wsByClientID (state w)) as [|[c ws] r] eqn:W; [congruence|].
    intros _. apply (timer_when_handle w C c). rewrite W.
    unfold Assoc.has. simpl. now rewrite String.eqb_refl.
  - apply (no_timer_when_unsubscribed w C).
Qed.



End Claims.

(** ** More invariants of the reachable worlds *)

Section UpkeepFacts.
Context {ext : Externals}.

Lemma keys_delete_In {V : Type} k (m : Assoc.t V) x :
  In x (Assoc.keys (Assoc.delete k m)) -> In x (Assoc.keys m).
Proof.
  induction m as [|[k' v'] r IH]; simpl; [tauto|].
  destruct (String.eqb k k'); simpl; intuition.
Qed.

Lemma NoDup_keys_delete {V : Type} k (m : Assoc.t V) :
  NoDup (Assoc.keys m) -> NoDup (Assoc.keys (Assoc.delete k m)).
Proof.
  induction m as [|[k' v'] r IH]; simpl; intros ND; [constructor|].
  inversion ND as [|? ? Hn ND']; subst.
  destruct (String.eqb k k'); simpl; auto.
  constructor; auto. intros H. apply Hn. now apply keys_delete_In in H.
Qed.

Lemma drop_nth_In {A : Type} n (l : list A) x : In x (drop_nth n l) -> In x l.
Proof.
  revert n. induction l as [|y r IH]; intros [|n]; simpl; auto.
  intros [H|H]; auto. right. now apply (IH n).
Qed.

Lemma note_start_In clientID started p x :
  In x (note_start clientID started p) -> In x p \/ x = clientID.
Proof.
  destruct started; simpl; auto.
  intros H. apply in_app_or in H. destruct H as [H|[H|[]]]; auto.
Qed.

Lemma updateDepartures_filled res st :
  (forall stopID ds,
      Assoc.get stopID (departuresByStopID st) = Some ds -> ds <> []) ->
  forall stopID ds,
    Assoc.get stopID (departuresByStopID (updateDepartures res st)) = Some ds ->
    ds <> [].
Proof.
  intros F stopID ds. rewrite updateDepartures_get.
  destruct (filter (of_group stop_id stopID) (departures res)) as [|d r].
  - apply F.
  - intros [= <-]. discriminate.
Qed.

Lemma tidy_boot : tidy boot.
Proof.
  split; simpl; try constructor; try discriminate; tauto.
Qed.

Lemma tidy_run w e w' :
  consistent w -> tidy w -> run w e = Some w' -> tidy w'.
Proof.
  intros C T. destruct e as [req uuid|clientID|clientID msg|clientID|id|n outcome];
    unfold run.
  - destruct (String.eqb uuid EmptyString || mem uuid (issued w)); [discriminate|].
    destruct (fetch req uuid (state w)) as [st' response] eqn:F.
    intros [= <-].
    destruct (fetch_state _ _ _ _ _ F) as [Ei [Ew [Ed Er]]].
    split; cbn [state issued pending]; rewrite ?Ew, ?Ed.
    + destruct Er as [[-> _]|[data ->]]; [apply (registry_distinct w T)|].
      apply NoDup_keys_set, (registry_distinct w T).
    + apply (handles_distinct w T).
    + intros c. destruct Er as [[-> _]|[data ->]].
      * intros H. right. now apply (registry_issued w T).
      * rewrite has_set. destruct (String.eqb c uuid) eqn:E.
        -- apply String.eqb_eq in E. now left.
        -- intros H. right. now apply (registry_issued w T).
    + intros c H. right. now apply (pending_issued w T).
    + apply (cache_filled w T).
  - destruct (Assoc.get clientID (connections w)) as [[|]|] eqn:G;
      try discriminate.
    destruct (open _ _ _) as [[st' effs] started] eqn:O.
    intros [= <-].
    destruct (open_state _ _ _ _ _ _ O) as [Er [Ew [Ed _]]].
    split; cbn [state issued pending data_clientID] in *; rewrite ?Er, ?Ew, ?Ed.
    + apply (registry_distinct w T).
    + apply NoDup_keys_set, (handles_distinct w T).
    + apply (registry_issued w T).
    + intros c H. apply note_start_In in H. destruct H as [H|[= ->]].
      * now apply (pending_issued w T).
      * apply (socket_issued w C). congruence.
    + apply (cache_filled w T).
  - destruct (Assoc.get clientID (connections w)) as [[|]|] eqn:G;
      try discriminate.
    destruct (message _ _ _) as [st' effs] eqn:M.
    intros [= <-].
    destruct (message_state _ _ _ _ _ M) as [Ei [Ew [Ed Er]]].
    split; cbn [state issued pending data_clientID] in *; rewrite ?Ew, ?Ed.
    + destruct Er as [->|[subscribe ->]]; [apply (registry_distinct w T)|].
      apply NoDup_keys_set, (registry_distinct w T).
    + apply (handles_distinct w T).
    + intros c. destruct Er as [->|[subscribe ->]]; [apply (registry_issued w T)|].
      rewrite has_set. destruct (String.eqb c clientID) eqn:E.
      * apply String.eqb_eq in E. subst c. intros _.
        apply (socket_issued w C). congruence.
      * apply (registry_issued w T).
    + apply (pending_issued w T).
    + apply (cache_filled w T).
  - destruct (Assoc.get clientID (connections w)) as [[|]|] eqn:G;
      try discriminate.
    destruct (close _ _) as [st' effs] eqn:K.
    intros [= <-].
    destruct (close_state _ _ _ _ K) as [Er [Ew [Ed _]]].
    split; cbn [state issued pending data_clientID] in *; rewrite ?Er, ?Ew, ?Ed.
    + apply NoDup_keys_delete, (registry_distinct w T).
    + apply NoDup_keys_delete, (handles_distinct w T).
    + intros c. rewrite has_delete. intros H. apply andb_prop in H.
      now apply (registry_issued w T).
    + apply (pending_issued w T).
    + apply (cache_filled w T).
  - destruct (existsb (Nat.eqb id) (timers w)); [|discriminate].
    destruct (fetchData_start None (state w)) as [effs started].
    intros [= <-]. destruct T.
    split; cbn [state issued pending]; auto.
    intros c H. apply note_start_In in H. destruct H as [H|H]; [auto|discriminate].
  - destruct (nth_error (pending w) n) as [clientID|]; [|discriminate].
    pose proof (fetchData_settle_frame clientID outcome (state w)) as F.
    assert (D : forall stopID ds,
               Assoc.get stopID
                 (departuresByStopID
                    (fst (fst (fetchData_settle clientID outcome (state w)))))
               = Some ds -> ds <> []).
    { destruct outcome as [e|res]; simpl.
      - apply (cache_filled w T).
      - rewrite fetchData_resume_state.
        apply updateDepartures_filled, (cache_filled w T). }
    destruct (fetchData_settle clientID outcome (state w)) as [[st' effs] c].
    simpl in F, D. destruct F as [Ei [Er Ew]].
    intros [= <-].
    split; cbn [state issued pending]; rewrite ?Er, ?Ew.
    + apply (registry_distinct w T).
    + apply (handles_distinct w T).
    + apply (registry_issued w T).
    + intros c0 H. apply drop_nth_In in H. now apply (pending_issued w T).
    + exact D.
Qed.

Lemma reachable_tidy w : reachable w -> tidy w.
Proof.
  induction 1 as [|w e w' R IH E].
  - apply tidy_boot.
  - exact (tidy_run _ _ _ (reachable_consistent w R) IH E).
Qed.

End UpkeepFacts.

(** ** What a settled refresh sends *)

Section SendFacts.
Context {ext : Externals}.







End SendFacts.

(** ** The cache, the registry and the requests over time *)

Section TimeFacts.
Context {ext : Externals}.

(** X7. In every reachable world, no entry of the departure cache is an
    empty array: an entry is only ever written from a non-empty group of
    the gateway's answer. *)
Theorem X7_cache_entries_are_never_empty :
  forall w : World,
    reachable w ->
    forall (stopID : string) (ds : list Departure),
      Assoc.get stopID (departuresByStopID (state w)) = Some ds -> ds <> [].
Proof.
  intros w R. apply (cache_filled w (reachable_tidy w R)).
Qed.

Lemma run_cache w e w' :
  run w e = Some w' ->
  (forall stopID, cached_in w stopID = true -> cached_in w' stopID = true)
  /\ ((forall n outcome, e <> settles n outcome) ->
      departuresByStopID (state w') = departuresByStopID (state w)).
Proof.
  unfold cached_in.
  destruct e as [req uuid|clientID|clientID msg|clientID|id|n outcome];
    unfold run.
  - destruct (String.eqb uuid EmptyString || mem uuid (issued w)); [discriminate|].
    destruct (fetch req uuid (state w)) as [st' response] eqn:F.
    intros [= <-]. destruct (fetch_state _ _ _ _ _ F) as [_ [_ [Ed _]]].
    cbn [state]. rewrite Ed. auto.
  - destruct (Assoc.get clientID (connections w)) as [[|]|]; try discriminate.
    destruct (open _ _ _) as [[st' effs] started] eqn:O.
    intros [= <-]. destruct (open_state _ _ _ _ _ _ O) as [_ [_ [Ed _]]].
    cbn [state]. rewrite Ed. auto.
  - destruct (Assoc.get clientID (connections w)) as [[|]|]; try discriminate.
    destruct (message _ _ _) as [st' effs] eqn:M.
    intros [= <-]. destruct (message_state _ _ _ _ _ M) as [_ [_ [Ed _]]].
    cbn [state]. rewrite Ed. auto.
  - destruct (Assoc.get clientID (connections w)) as [[|]|]; try discriminate.
    destruct (close _ _) as [st' effs] eqn:K.
    intros [= <-]. destruct (close_state _ _ _ _ K) as [_ [_ [Ed _]]].
    cbn [state]. rewrite Ed. auto.
  - destruct (existsb (Nat.eqb id) (timers w)); [|discriminate].
    destruct (fetchData_start None (state w)) as [effs started].
    intros [= <-]. cbn [state]. auto.
  - destruct (nth_error (pending w) n) as [clientID|]; [|discriminate].
    assert (K : forall stopID,
               Assoc.has stopID (departuresByStopID (state w)) = true ->
               Assoc.has stopID
                 (departuresByStopID
                    (fst (fst (fetchData_settle clientID outcome (state w)))))
               = true).
    { destruct outcome as [e|res]; simpl; [auto|].
      rewrite fetchData_resume_state. intros stopID. unfold Assoc.has.
      rewrite updateDepartures_get.
      now destruct (filter (of_group stop_id stopID) (departures res)). }
    destruct (fetchData_settle clientID outcome (state w)) as [[st' effs] c].
    intros [= <-]. cbn [state]. split; [exact K|].
    intros N. exfalso. now apply (N n outcome).
Qed.

(** X8. A stop that is in the cache stays in the cache, whatever events
    follow, a close of the last client included; and no event other than
    the settling of a gateway call changes the cache at all. *)
Theorem X8_cached_stop_stays_cached :
  forall (es : list Event) (w w' : World),
    runs w es = Some w' ->
    (forall stopID, cached_in w stopID = true -> cached_in w' stopID = true)
    /\ ((forall n outcome, ~ In (settles n outcome) es) ->
        departuresByStopID (state w') = departuresByStopID (state w)).
Proof.
  induction es as [|e r IH]; simpl; intros w w' H.
  - injection H as <-. auto.
  - destruct (run w e) as [w1|] eqn:E; [|discriminate].
    destruct (run_cache _ _ _ E) as [K1 F1].
    destruct (IH _ _ H) as [K2 F2]. split.
    + auto.
    + intros N. rewrite F2, F1; [reflexivity| |].
      * intros n outcome ->. apply (N n outcome). now left.
      * intros n outcome I. apply (N n outcome). now right.
Qed.

Lemma count_occ_concat (ls : list (list string)) s :
  count_occ string_dec (List.concat ls) s
  = list_sum (map (fun l => count_occ string_dec l s) ls).
Proof.
  induction ls as [|l r IH]; simpl; [reflexivity|].
  now rewrite count_occ_app, IH.
Qed.

(** X9. A tick asks the gateway for the stop lists of all registry
    entries, one after the other: a stop is requested exactly when some
    entry lists it, and as many times as the entries list it together
    (a stop two clients subscribe to is requested twice). *)
Theorem X9_tick_requests_every_subscription :
  forall (w : World) (id : nat) (w' : World),
    run w (tick id) = Some w' ->
    exists ids,
      effects w' = effects w ++ [fetchApiData ids]
      /\ (forall stopID,
             In stopID ids
             <-> exists client stopIDs,
                   In (client, stopIDs) (subscribedStopIDsByClientID (state w))
                   /\ In stopID stopIDs)
      /\ forall stopID,
           count_occ string_dec ids stopID
           = list_sum
               (map (fun stopIDs => count_occ string_dec stopIDs stopID)
                    (Assoc.values (subscribedStopIDsByClientID (state w)))).
Proof.
  intros w id w' H. unfold run in H.
  destruct (existsb (Nat.eqb id) (timers w)); [|discriminate].
  injection H as <-. exists (getAllSubscribedStopIDs (state w)).
  split; [reflexivity|]. unfold getAllSubscribedStopIDs. split.
  - intros stopID. rewrite in_concat. unfold Assoc.values. split.
    + intros [l [I Hs]]. apply in_map_iff in I. destruct I as [[c l'] [E I]].
      simpl in E. subst l'. exists c, l. auto.
    + intros [c [l [I Hs]]]. exists l. split; [|exact Hs].
      exact (in_map snd _ _ I).
  - intros stopID. apply count_occ_concat.
Qed.



(** X11. [close] removes the entry and the handle of its own client and
    no other, leaves the cache as it is, and cancels no pending refresh;
    afterwards the timer handle is [null] exactly if it was, or if the
    registry has become empty. *)
Theorem X11_close_removes_only_its_client :
  forall (w : World) (client : string) (w' : World),
    run w (closes client) = Some w' ->
    Assoc.get client (subscribedStopIDsByClientID (state w')) = None
    /\ Assoc.get client (wsByClientID (state w')) = None
    /\ (forall other,
           other <> client ->
           Assoc.get other (subscribedStopIDsByClientID (state w'))
           = Assoc.get other (subscribedStopIDsByClientID (state w))
           /\ Assoc.get other (wsByClientID (state w'))
              = Assoc.get other (wsByClientID (state w)))
    /\ departuresByStopID (state w') = departuresByStopID (state w)
    /\ pending w' = pending w
    /\ (intervalId (state w') = None
        <-> intervalId (state w) = None
            \/ subscribedStopIDsByClientID (state w') = []).
Proof.
  intros w client w' H. unfold run in H.
  destruct (Assoc.get client (connections w)) as [[|]|]; try discriminate.
  destruct (close _ _) as [st' effs] eqn:K. injection H as <-.
  destruct (close_state _ _ _ _ K) as [Er [Ew [Ed Et]]].
  cbn [state pending data_clientID] in *. rewrite Er, Ew, Ed.
  rewrite !get_delete_same. repeat split; auto.
  - apply get_delete_other. congruence.
  - apply get_delete_other. congruence.
  - rewrite <- Er. intros N.
    destruct Et as [[E _]|[id [_ [_ [_ E]]]]]; [left; congruence|now right].
  - rewrite <- Er.
    destruct Et as [[E [_ [I|Z]]]|[id [_ [I _]]]].
    + intros _. congruence.
    + intros [I|N]; [congruence|]. rewrite N in Z. simpl in Z. lia.
    + intros _. exact I.
Qed.

End TimeFacts.

(** ** A refresh that the gateway answers in full *)

Section AnsweredFacts.
Context {ext : Externals}.



End AnsweredFacts.

(** ** The widget's provider *)

Section WidgetFacts.
Context {col : Widget.Collaborators}.

Lemma map_rewrap (l : list Widget.WidgetEntryDeparture) :
  map Widget.rewrap l = l.
Proof.
  induction l as [|[d h m] r IH]; simpl; [reflexivity|].
  now rewrite IH.
Qed.

Lemma parseDepartures_Completed gtfsIDs departures acc out :
  Widget.parseDepartures gtfsIDs departures acc = Widget.Completed out
  <-> exists firsts,
        Widget.first_departures departures gtfsIDs firsts
        /\ out = acc ++ map Widget.parsedDeparture firsts.
Proof.
  unfold Widget.first_departures.
  revert acc. induction gtfsIDs as [|g r IH]; simpl; intros acc.
  - split.
    + intros [= <-]. exists []. split; [constructor|]. now rewrite app_nil_r.
    + intros [firsts [F ->]]. inversion F. simpl. now rewrite app_nil_r.
  - destruct (Assoc.get g departures) as [[|f o]|] eqn:G.
    + split; [discriminate|]. intros [firsts [F _]].
      inversion F as [|? ? ? ? [others E]]; subst. congruence.
    + rewrite IH. split.
      * intros [firsts [F ->]]. exists (f :: firsts). split.
        -- constructor; [now exists o|exact F].
        -- simpl. now rewrite <- app_assoc.
      * intros [firsts [F ->]].
        inversion F as [|? f' ? fs [others E] F']; subst.
        rewrite G in E. injection E as <- <-.
        exists fs. split; [exact F'|]. simpl. now rewrite <- app_assoc.
    + split; [discriminate|]. intros [firsts [F _]].
      inversion F as [|? ? ? ? [others E]]; subst. congruence.
Qed.

Lemma parseDepartures_Trap gtfsIDs departures acc :
  Widget.parseDepartures gtfsIDs departures acc = Widget.Trap
  <-> exists gtfsID,
        In gtfsID gtfsIDs /\ Widget.lacks_departures departures gtfsID.
Proof.
  unfold Widget.lacks_departures.
  revert acc. induction gtfsIDs as [|g r IH]; simpl; intros acc.
  - split; [discriminate|]. now intros [x [[] _]].
  - destruct (Assoc.get g departures) as [[|f o]|] eqn:G.
    + split; [|reflexivity]. intros _. exists g. auto.
    + rewrite IH. split.
      * intros [x [I L]]. exists x. auto.
      * intros [x [[<-|I] L]]; [|now exists x].
        rewrite G in L. destruct L; discriminate.
    + split; [|reflexivity]. intros _. exists g. auto.
Qed.

(** X13. [getSnapshot] hands [completion] an entry exactly when the fetch
    returns and every platform of the station closest to Florenc has a
    departure in what it returns: the entry then has the station's name and
    one departure per platform, in platform order, made of the predicted
    time, headsign and line of that platform's first departure. It traps
    exactly when the fetch throws or some platform has no key or an empty
    array in the dictionary. *)
Theorem X13_snapshot_takes_first_departure_of_each_platform :
  forall (getDeparturesByGtfsID : list string -> Widget.Fetched)
         (now : Widget.Date),
    let closestStation :=
      Widget.getClosestStationFromGeoJSON Widget.FLORENC_COORDINATES in
    let gtfsIDs := map Widget.gtfsId (Widget.platforms closestStation) in
    (forall entry,
        Widget.getSnapshot getDeparturesByGtfsID now = Widget.Completed entry
        <-> exists departures firsts,
              getDeparturesByGtfsID gtfsIDs = Widget.Returned departures
              /\ Widget.first_departures departures gtfsIDs firsts
              /\ entry
                 = {| Widget.date := now;
                      Widget.stationName := Widget.name closestStation;
                      Widget.departures :=
                        map Widget.parsedDeparture firsts |})
    /\ (Widget.getSnapshot getDeparturesByGtfsID now = Widget.Trap
        <-> getDeparturesByGtfsID gtfsIDs = Widget.Thrown
            \/ exists departures gtfsID,
                 getDeparturesByGtfsID gtfsIDs = Widget.Returned departures
                 /\ In gtfsID gtfsIDs
                 /\ Widget.lacks_departures departures gtfsID).
Proof.
  intros fetch now closestStation gtfsIDs. unfold Widget.getSnapshot.
  fold closestStation. fold gtfsIDs.
  destruct (fetch gtfsIDs) as [departures|].
  - pose proof (parseDepartures_Completed gtfsIDs departures []) as PC.
    pose proof (parseDepartures_Trap gtfsIDs departures []) as PT.
    destruct (Widget.parseDepartures gtfsIDs departures []) as [parsed|].
    + split.
      * intros entry. split.
        -- intros [= <-]. destruct (proj1 (PC parsed) eq_refl) as [firsts [F E]].
           exists departures, firsts. simpl in E. subst parsed.
           now rewrite map_rewrap.
        -- intros [departures' [firsts [[= <-] [F ->]]]].
           assert (E : Widget.Completed parsed
                       = Widget.Completed ([] ++ map Widget.parsedDeparture firsts)).
           { apply PC. now exists firsts. }
           injection E as ->. simpl. now rewrite map_rewrap.
      * split; [discriminate|]. intros [H|[departures' [g [[= <-] [I L]]]]].
        -- discriminate.
        -- assert (E : @Widget.Completed _ parsed = Widget.Trap).
           { apply PT. now exists g. }
           discriminate.
    + split.
      * intros entry. split; [discriminate|].
        intros [departures' [firsts [[= <-] [F _]]]].
        assert (E : @Widget.Trap (list Widget.WidgetEntryDeparture)
                    = Widget.Completed ([] ++ map Widget.parsedDeparture firsts)).
        { apply PC. now exists firsts. }
        discriminate.
      * split; [|reflexivity]. intros _. right.
        destruct (proj1 PT eq_refl) as [g [I L]]. now exists departures, g.
  - split.
    + intros entry. split; [discriminate|].
      now intros [departures [firsts [E _]]].
    + split; [auto|reflexivity].
Qed.

(** X14. A timeline that [getTimeline] completes for a known location has
    the policy [atEnd] and exactly one entry: dated [now], named after the
    station closest to the location's coordinates, with as many departures
    as that station has platforms. *)
Theorem X14_timeline_has_one_entry_per_location :
  forall (currentLocation : Widget.CLLocation)
         (getDeparturesByGtfsID : list string -> Widget.Fetched)
         (now : Widget.Date) (timeline : Widget.Timeline),
    Widget.getTimeline (Some currentLocation) getDeparturesByGtfsID now
    = Widget.Completed timeline ->
    let closestStation :=
      Widget.getClosestStationFromGeoJSON
        (Widget.CLLocation_init (Widget.latitude currentLocation)
           (Widget.longitude currentLocation)) in
    Widget.policy timeline = Widget.atEnd
    /\ exists entry,
         Widget.entries timeline = [entry]
         /\ Widget.date entry = now
         /\ Widget.stationName entry = Widget.name closestStation
         /\ List.length (Widget.departures entry)
            = List.length (Widget.platforms closestStation).
Proof.
  intros loc fetch now timeline H closestStation.
  unfold Widget.getTimeline in H. fold closestStation in H.
  destruct (fetch _) as [departures|]; [|discriminate].
  destruct (Widget.parseDepartures _ departures []) as [parsed|] eqn:P;
    [|discriminate].
  injection H as <-. split; [reflexivity|]. eexists. split; [reflexivity|].
  simpl. repeat split.
  apply parseDepartures_Completed in P. destruct P as [firsts [F ->]].
  unfold Widget.first_departures in F. apply Forall2_length in F.
  simpl. now rewrite !length_map in *.
Qed.

(** X15. With no location, [getTimeline] completes at once with an empty
    timeline, whatever the fetch would do. With a location whose closest
    station is the one closest to Florenc, it does what [getSnapshot] does:
    it traps when the snapshot traps, and otherwise its timeline holds the
    snapshot's entry and nothing else. *)
Theorem X15_timeline_agrees_with_snapshot :
  forall (getDeparturesByGtfsID : list string -> Widget.Fetched)
         (now : Widget.Date),
    Widget.getTimeline None getDeparturesByGtfsID now
    = Widget.Completed {| Widget.entries := []; Widget.policy := Widget.atEnd |}
    /\ forall currentLocation,
         Widget.getClosestStationFromGeoJSON
           (Widget.CLLocation_init (Widget.latitude currentLocation)
              (Widget.longitude currentLocation))
         = Widget.getClosestStationFromGeoJSON Widget.FLORENC_COORDINATES ->
         Widget.getTimeline (Some currentLocation) getDeparturesByGtfsID now
         = match Widget.getSnapshot getDeparturesByGtfsID now with
           | Widget.Completed entry =>
               Widget.Completed {| Widget.entries := [entry];
                                   Widget.policy := Widget.atEnd |}
           | Widget.Trap => Widget.Trap
           end.
Proof.
  intros fetch now. split; [reflexivity|].
  intros loc E. unfold Widget.getTimeline, Widget.getSnapshot. rewrite E.
  destruct (fetch _) as [departures|]; [|reflexivity].
  now destruct (Widget.parseDepartures _ departures []).
Qed.

End WidgetFacts.

(** ** The claims on the scenarios *)

#[local] Existing Instance Demo.externals.

Lemma JSON_object_text_empty {ext : Externals} (props : JSONObject) :
  JSON_object_text props = "{}" -> props = [].
Proof.
  destruct props as [|[k v] r]; [reflexivity|].
  unfold JSON_object_text. simpl map.
  destruct (map JSON_property_text r); simpl; discriminate.
Qed.

(** C1 as stated fails. A client subscribed to [stopA] is refreshed while
    the cache has no entry for [stopA]: the frame it is sent is the text of
    the empty object, in which no property is named [stopA], with [null] or
    otherwise. *)
Lemma C1_never_fetched_stop_is_left_out :
  runs boot Demo.never_fetched = Some (after Demo.never_fetched)
  /\ Assoc.get "u1"
       (subscribedStopIDsByClientID (state (after Demo.never_fetched)))
     = Some ["stopA"]
  /\ Assoc.get "stopA" (departuresByStopID (state (after Demo.never_fetched)))
     = None
  /\ effects (after Demo.never_fetched)
     = [fetchApiData ["stopA"]; setInterval 5000 0; ws_send Demo.ws_u1 "{}"]
  /\ forall props : JSONObject,
       "{}" = JSON_object_text props -> ~ In "stopA" (map fst props).
Proof.
  repeat split.
  intros props E H. symmetry in E. apply JSON_object_text_empty in E.
  subst props. exact H.
Qed.

(** C1, amended, on the refresh that answers the first client with a
    departure for [stopA]. *)
Lemma C1_payload_on_served_client :
  fetchData_settle (Some "u1") (inr Demo.haje) (state (after Demo.one_client))
  = (Demo.served, [ws_send Demo.ws_u1 Demo.stopA_payload], Normal tt)
  /\ exists client stopIDs props,
       In (client, Demo.ws_u1) (wsByClientID Demo.served)
       /\ Assoc.get client (subscribedStopIDsByClientID Demo.served)
          = Some stopIDs
       /\ Demo.stopA_payload = JSON_object_text props
       /\ NoDup (map fst props)
       /\ forall k v,
            In (k, v) props
            <-> In k stopIDs
                /\ exists ds,
                     Assoc.get k (departuresByStopID Demo.served) = Some ds
                     /\ v = JSON_array ds.
Proof.
  split; [reflexivity|].
  apply (C1_payload_has_the_cached_subscribed_stops
           (Some "u1") (inr Demo.haje) (state (after Demo.one_client))
           Demo.served [ws_send Demo.ws_u1 Demo.stopA_payload] (Normal tt)).
  - reflexivity.
  - left. reflexivity.
Defined.

(** C2 as stated fails. The second client subscribes to a stop that is in
    the cache already: the set computed for its refresh is empty, and the
    gateway is called with it all the same. *)
Lemma C2_gateway_called_with_the_empty_set :
  runs boot Demo.second_client = Some (after Demo.second_client)
  /\ stopIDsToFetch (Some "u2") (state (after Demo.second_client)) = Normal []
  /\ effects (after Demo.second_client)
     = effects (after Demo.one_client_served) ++ [fetchApiData []]
  /\ pending (after Demo.second_client) = [Some "u2"].
Proof. repeat split. Qed.

(** C2, amended, in the world where the first client has been served. *)
Lemma C2_refreshes_after_first_client :
  reachable (after Demo.one_client_served)
  /\ run (after Demo.one_client_served) (tick 0)
     = Some (after (Demo.one_client_served ++ [tick 0]))
  /\ effects (after (Demo.one_client_served ++ [tick 0]))
     = effects (after Demo.one_client_served) ++ [fetchApiData ["stopA"]]
  /\ pending (after (Demo.one_client_served ++ [tick 0]))
     = pending (after Demo.one_client_served) ++ [None].
Proof.
  assert (R : run (after Demo.one_client_served) (tick 0)
              = Some (after (Demo.one_client_served ++ [tick 0])))
    by reflexivity.
  split; [apply after_reachable|]. split; [exact R|].
  exact (proj1 (C2_gateway_called_on_every_refresh
                  (after Demo.one_client_served) (after_reachable _))
               0 (after (Demo.one_client_served ++ [tick 0])) R).
Defined.

(** C3 as stated fails. The gateway call of the first refresh fails: the
    error leaves [fetchData], whose promise is rejected with it; nothing is
    logged or sent. *)
Lemma C3_gateway_error_escapes_the_refresh :
  runs boot Demo.gateway_fails = Some (after Demo.gateway_fails)
  /\ rejections (after Demo.gateway_fails) = [Demo.unavailable]
  /\ effects (after Demo.gateway_fails)
     = [fetchApiData ["stopA"]; setInterval 5000 0]
  /\ fetchData (Some "u1") (fun _ => inl Demo.unavailable)
       (state (after Demo.one_client))
     = (state (after Demo.one_client), [fetchApiData ["stopA"]],
        Throw Demo.unavailable).
Proof. repeat split. Qed.

(** C3, amended, on that failure. *)
Lemma C3_failed_refresh_of_first_client :
  run (after Demo.one_client) (settles 0 (inl Demo.unavailable))
  = Some (after Demo.gateway_fails)
  /\ rejections (after Demo.gateway_fails)
     = rejections (after Demo.one_client) ++ [Demo.unavailable]
  /\ state (after Demo.gateway_fails) = state (after Demo.one_client)
  /\ effects (after Demo.gateway_fails) = effects (after Demo.one_client)
  /\ timers (after Demo.gateway_fails) = timers (after Demo.one_client)
  /\ connections (after Demo.gateway_fails)
     = connections (after Demo.one_client).
Proof.
  split; [reflexivity|].
  apply (C3_gateway_failure_rejects_the_refresh
           (after Demo.one_client) 0 Demo.unavailable
           (after Demo.gateway_fails)).
  reflexivity.
Defined.

(** C4 on the code. The client closes while its targeted refresh waits for
    the gateway; when the gateway answers, the refresh writes the cache and
    then throws on the handle that is no longer stored, so its promise is
    rejected with a [TypeError]. *)
Theorem C4_refresh_throws_after_close :
  runs boot Demo.closed_while_pending = Some (after Demo.closed_while_pending)
  /\ pending (after (Demo.one_client ++ [closes "u1"])) = [Some "u1"]
  /\ Assoc.get "u1"
       (wsByClientID (state (after (Demo.one_client ++ [closes "u1"]))))
     = None
  /\ fetchData_settle (Some "u1") (inr Demo.haje)
       (state (after (Demo.one_client ++ [closes "u1"])))
     = (state (after Demo.closed_while_pending), [],
        Throw undefined_is_not_an_object)
  /\ rejections (after Demo.closed_while_pending)
     = [undefined_is_not_an_object].
Proof. repeat split. Qed.

(** C5 on the code. A request with a valid header that is no WebSocket
    handshake gets its stop list registered under a new identifier; the
    upgrade fails, no socket exists, and the entry stays. *)
Theorem C5_failed_upgrade_leaves_an_entry :
  runs boot Demo.not_a_handshake = Some (after Demo.not_a_handshake)
  /\ fetch (Demo.plain_request ["stopA"]) "u1" initial
     = (state (after Demo.not_a_handshake),
        Some (ErrorResponse "Failed to upgrade connection"))
  /\ subscribedStopIDsByClientID (state (after Demo.not_a_handshake))
     = [("u1", ["stopA"])]
  /\ connections (after Demo.not_a_handshake) = [].
Proof. repeat split. Qed.

(** C6 on the code. After such a request, a client connects and closes:
    the entry left behind keeps the registry non-empty, so [close] does not
    clear the interval, and the timer runs with no socket at all. *)
Theorem C6_timer_outlives_the_last_connection :
  runs boot Demo.last_client_closes = Some (after Demo.last_client_closes)
  /\ connections (after Demo.last_client_closes) = []
  /\ wsByClientID (state (after Demo.last_client_closes)) = []
  /\ subscribedStopIDsByClientID (state (after Demo.last_client_closes))
     = [("u1", ["stopA"])]
  /\ intervalId (state (after Demo.last_client_closes)) = Some 0
  /\ timers (after Demo.last_client_closes) = [0].
Proof. repeat split. Qed.


(** C9 on the served client, which replaces [stopA] by [stopB]. *)
Lemma C9_served_client_resubscribes :
  run (after Demo.one_client_served)
      (receives "u1" (Text (Demo.subscribe_text ["stopB"])))
  = Some (after Demo.resubscribes)
  /\ Assoc.get "u1" (subscribedStopIDsByClientID (state (after Demo.resubscribes)))
     = Some ["stopB"]
  /\ effects (after Demo.resubscribes) = effects (after Demo.one_client_served)
  /\ pending (after Demo.resubscribes) = pending (after Demo.one_client_served).
Proof.
  assert (P : JSON_parse (Demo.subscribe_text ["stopB"])
              = inr (Demo.subscribe_object ["stopB"])) by reflexivity.
  assert (V : SubscribeSchema_safeParse (Demo.subscribe_object ["stopB"])
              = inr ["stopB"]) by reflexivity.
  assert (R : run (after Demo.one_client_served)
                (receives "u1" (Text (Demo.subscribe_text ["stopB"])))
              = Some (after Demo.resubscribes)) by reflexivity.
  split; [exact R|].
  destruct (C9_subscribe_replaces_the_entry
              (after Demo.one_client_served) "u1"
              (Demo.subscribe_text ["stopB"])
              (Demo.subscribe_object ["stopB"]) ["stopB"]
              (after Demo.resubscribes) P V R)
    as [H1 [_ [_ [_ [_ [H2 [H3 _]]]]]]].
  auto.
Defined.

(** C10 in the world where the first client has been served. *)
Lemma C10_served_client_has_entry :
  reachable (after Demo.one_client_served)
  /\ Assoc.has "u1" (wsByClientID (state (after Demo.one_client_served))) = true
  /\ Assoc.has "u1"
       (subscribedStopIDsByClientID (state (after Demo.one_client_served)))
     = true
  /\ exists data,
       getStringifiedDataForClientID "u1" (state (after Demo.one_client_served))
       = Normal data.
Proof.
  split; [apply after_reachable|]. split; [reflexivity|].
  apply (proj1 (C10_stored_handle_has_registry_entry
                  (after Demo.one_client_served) (after_reachable _)) "u1").
  reflexivity.
Defined.

(** X1 and X2 in the world where the first client has been served. *)
Lemma X1_one_timer_for_served_client :
  reachable (after Demo.one_client_served)
  /\ timers (after Demo.one_client_served) = [0]
  /\ List.length (timers (after Demo.one_client_served)) <= 1.
Proof.
  split; [apply after_reachable|].
  apply (X1_at_most_one_timer (after Demo.one_client_served)
           (after_reachable _)).
Defined.

Lemma X2_timer_runs_for_served_client :
  reachable (after Demo.one_client_served)
  /\ wsByClientID (state (after Demo.one_client_served)) <> []
  /\ intervalId (state (after Demo.one_client_served)) <> None.
Proof.
  split; [apply after_reachable|]. split; [discriminate|].
  apply (proj1 (X2_timer_runs_while_a_handle_is_stored
                  (after Demo.one_client_served) (after_reachable _))).
  discriminate.
Defined.





(** X7 on the entry of [stopA]. *)
Lemma X7_entry_of_stopA_is_not_empty :
  reachable (after Demo.one_client_served)
  /\ Assoc.get "stopA" (departuresByStopID (state (after Demo.one_client_served)))
     = Some [("stopA", "Haje")]
  /\ [("stopA", "Haje")] <> @nil (string * string).
Proof.
  split; [apply after_reachable|]. split; [reflexivity|].
  apply (X7_cache_entries_are_never_empty
           (after Demo.one_client_served) (after_reachable _) "stopA").
  reflexivity.
Defined.

(** X8 when the only client closes. *)
Lemma X8_stopA_survives_the_close :
  runs (after Demo.one_client_served) [closes "u1"]
  = Some (after Demo.served_client_closes)
  /\ cached_in (after Demo.one_client_served) "stopA" = true
  /\ cached_in (after Demo.served_client_closes) "stopA" = true
  /\ departuresByStopID (state (after Demo.served_client_closes))
     = departuresByStopID (state (after Demo.one_client_served)).
Proof.
  assert (R : runs (after Demo.one_client_served) [closes "u1"]
              = Some (after Demo.served_client_closes)) by reflexivity.
  split; [exact R|]. split; [reflexivity|].
  destruct (X8_cached_stop_stays_cached
              [closes "u1"] (after Demo.one_client_served)
              (after Demo.served_client_closes) R) as [K F].
  split.
  - apply K. reflexivity.
  - apply F. intros n outcome [H|[]]. discriminate.
Defined.

(** X9 on the tick after two clients have subscribed to [stopA]. *)
Lemma X9_tick_requests_stopA_twice :
  run (after Demo.both_served) (tick 0) = Some (after Demo.ticked)
  /\ effects (after Demo.ticked)
     = effects (after Demo.both_served) ++ [fetchApiData ["stopA"; "stopA"]]
  /\ exists ids,
       effects (after Demo.ticked)
       = effects (after Demo.both_served) ++ [fetchApiData ids]
       /\ (forall stopID,
              In stopID ids
              <-> exists client stopIDs,
                    In (client, stopIDs)
                       (subscribedStopIDsByClientID (state (after Demo.both_served)))
                    /\ In stopID stopIDs)
       /\ forall stopID,
            count_occ string_dec ids stopID
            = list_sum
                (map (fun stopIDs => count_occ string_dec stopIDs stopID)
                     (Assoc.values
                        (subscribedStopIDsByClientID
                           (state (after Demo.both_served))))).
Proof.
  assert (R : run (after Demo.both_served) (tick 0) = Some (after Demo.ticked))
    by reflexivity.
  split; [exact R|]. split; [reflexivity|].
  exact (X9_tick_requests_every_subscription
           (after Demo.both_served) 0 (after Demo.ticked) R).
Defined.


(** X11 when the served client closes. *)
Lemma X11_served_client_closes :
  run (after Demo.one_client_served) (closes "u1")
  = Some (after Demo.served_client_closes)
  /\ Assoc.get "u1"
       (subscribedStopIDsByClientID (state (after Demo.served_client_closes)))
     = None
  /\ Assoc.get "u1" (wsByClientID (state (after Demo.served_client_closes)))
     = None
  /\ pending (after Demo.served_client_closes)
     = pending (after Demo.one_client_served).
Proof.
  assert (R : run (after Demo.one_client_served) (closes "u1")
              = Some (after Demo.served_client_closes)) by reflexivity.
  split; [exact R|].
  destruct (X11_close_removes_only_its_client
              (after Demo.one_client_served) "u1"
              (after Demo.served_client_closes) R)
    as [E1 [E2 [_ [_ [E3 _]]]]].
  auto.
Defined.


#[local] Existing Instance Widget.collaborators.

(** X14 and X15 for a location whose closest station is Florenc. *)
Lemma X14_timeline_near_florenc :
  exists timeline,
    Widget.getTimeline (Some Widget.near_florenc) Widget.api Widget.noon
    = Widget.Completed timeline
    /\ Widget.policy timeline = Widget.atEnd
    /\ exists entry,
         Widget.entries timeline = [entry]
         /\ Widget.date entry = Widget.noon
         /\ Widget.stationName entry = "Florenc"
         /\ List.length (Widget.departures entry) = 2.
Proof.
  eexists. split; [reflexivity|].
  apply (X14_timeline_has_one_entry_per_location
           Widget.near_florenc Widget.api Widget.noon).
  reflexivity.
Defined.

Lemma X15_timeline_near_florenc_is_the_snapshot :
  Widget.getClosestStationFromGeoJSON
    (Widget.CLLocation_init (Widget.latitude Widget.near_florenc)
       (Widget.longitude Widget.near_florenc))
  = Widget.getClosestStationFromGeoJSON Widget.FLORENC_COORDINATES
  /\ Widget.getTimeline (Some Widget.near_florenc) Widget.api Widget.noon
     = match Widget.getSnapshot Widget.api Widget.noon with
       | Widget.Completed entry =>
           Widget.Completed {| Widget.entries := [entry];
                               Widget.policy := Widget.atEnd |}
       | Widget.Trap => Widget.Trap
       end.
Proof.
  split; [reflexivity|].
  apply (proj2 (X15_timeline_agrees_with_snapshot Widget.api Widget.noon)
               Widget.near_florenc).
  reflexivity.
Defined.
